(** * EnvTypesWebpack: the env-file parser, the declaration renderer and the
      webpack plugin's generation hooks, embedded from
      [src/EnvTypesGenerator.ts] and [src/EnvTypesPlugin.ts].

    JavaScript strings are sequences of UTF-16 code units; they are modelled
    as [list N], one number per code unit, so that [trim] and the regular
    expression class [\s] can use the full ECMAScript white-space set.
    ASCII literals of the source are written [lit "..."]. *)

From Stdlib Require Import NArith String Ascii List Lia DecimalString.
From stdpp Require Import gmap list.
Import ListNotations.
Local Open Scope N_scope.

(** ** JavaScript strings *)

Abbreviation jsstring := (list N).

Definition lit (s : string) : jsstring :=
  map N_of_ascii (list_ascii_of_string s).

Definition NL : N := 10.      (* '\n' *)
Definition HASH : N := 35.    (* '#' *)
Definition EQUALS : N := 61.  (* '=' *)

(** ECMAScript WhiteSpace and LineTerminator code units: what
    [String.prototype.trim] strips and what [\s] matches. *)
Definition isWhiteSpace (c : N) : bool :=
  existsb (N.eqb c)
    [9; 10; 11; 12; 13; 32; 160; 5760; 8232; 8233; 8239; 8287; 12288; 65279]
  || ((8192 <=? c) && (c <=? 8202)).

Fixpoint trimStart (s : jsstring) : jsstring :=
  match s with
  | c :: r => if isWhiteSpace c then trimStart r else s
  | [] => []
  end.

Definition trimEnd (s : jsstring) : jsstring := rev (trimStart (rev s)).

(** [s.trim()] *)
Definition trim (s : jsstring) : jsstring := trimEnd (trimStart s).

(** [s.startsWith(p)] *)
Fixpoint startsWith (p s : jsstring) : bool :=
  match p, s with
  | [], _ => true
  | a :: p', b :: s' => (a =? b) && startsWith p' s'
  | _ :: _, [] => false
  end.

(** [s.includes(c)] for a one-character needle *)
Definition includes (c : N) (s : jsstring) : bool := existsb (N.eqb c) s.

(** [s.indexOf(c)] for a one-character needle; [None] stands for [-1]. *)
Fixpoint indexOf (c : N) (s : jsstring) : option nat :=
  match s with
  | [] => None
  | x :: r => if x =? c then Some O else option_map S (indexOf c r)
  end.

(** [s.slice(n)] for [0 <= n] *)
Definition slice (n : nat) (s : jsstring) : jsstring := drop n s.

(** [s.split(c)] for a one-character separator. The result of [split] is
    never the empty array; [split1] returns its first element and the rest. *)
Fixpoint split1 (c : N) (s : jsstring) : jsstring * list jsstring :=
  match s with
  | [] => ([], [])
  | x :: r =>
      let '(h, t) := split1 c r in
      if x =? c then ([], h :: t) else (x :: h, t)
  end.

Definition split (c : N) (s : jsstring) : list jsstring :=
  let '(h, t) := split1 c s in h :: t.

(** [a.join(sep)] *)
Fixpoint join (sep : jsstring) (a : list jsstring) : jsstring :=
  match a with
  | [] => []
  | [x] => x
  | x :: r => x ++ sep ++ join sep r
  end.

(** [line.replace(/^#\s?/, '')] *)
Definition stripCommentMarker (line : jsstring) : jsstring :=
  match line with
  | c :: r =>
      if c =? HASH then
        match r with
        | w :: r' => if isWhiteSpace w then r' else r
        | [] => []
        end
      else line
  | [] => []
  end.

(** [n.toString()] for a non-negative integer *)
Definition toString (n : N) : jsstring :=
  lit (NilZero.string_of_uint (N.to_uint n)).

(** [s.padStart(2, '0')] *)
Definition padStart2 (s : jsstring) : jsstring :=
  repeat 48 (2 - length s)%nat ++ s.

(** ** The parser *)

Record EnvEntry := mkEnvEntry {
  key : jsstring;
  comment : option jsstring;   (* [string | null] *)
}.

(** Truthiness of a [string | null] value. *)
Definition truthy (s : option jsstring) : bool :=
  match s with
  | Some (_ :: _) => true
  | _ => false
  end.

(** The pieces of a declaration line [line] (already trimmed), lines 92-111
    of [parseEnvFile], under the names of the source's constants. *)
Definition cleaned (line : jsstring) : jsstring :=
  if startsWith (lit "export ") line then slice 7 line else line.

Definition valuePart (rest : list jsstring) : jsstring := join [EQUALS] rest.

Definition inlineComment (valuePart : jsstring) : option jsstring :=
  match indexOf HASH valuePart with
  | Some hashIndex => Some (trim (slice (hashIndex + 1) valuePart))
  | None => None
  end.

Definition comments (commentBuffer : list jsstring)
  (inlineComment : option jsstring) : list jsstring :=
  commentBuffer ++
  (if truthy inlineComment then [default [] inlineComment] else []).

(** The entry pushed for the declaration line, given the comment buffer. *)
Definition declaration (commentBuffer : list jsstring) (line : jsstring)
  : EnvEntry :=
  let '(left_, rest) := split1 EQUALS (cleaned line) in
  let comments := comments commentBuffer (inlineComment (valuePart rest)) in
  {| key := trim left_;
     comment := match comments with
                | [] => None
                | _ => Some (join [NL] comments)
                end |}.

(** One iteration of the [for (const rawLine of lines)] loop; the state is
    [(entries, commentBuffer)]. *)
Definition parseLine (st : list EnvEntry * list jsstring) (rawLine : jsstring)
  : list EnvEntry * list jsstring :=
  let '(entries, commentBuffer) := st in
  let line := trim rawLine in
  match line with
  | [] => (entries, [])
  | _ =>
      if startsWith [HASH] line then
        (entries, commentBuffer ++ [stripCommentMarker line])
      else if negb (includes EQUALS line) then (entries, [])
      else (entries ++ [declaration commentBuffer line], [])
  end.

(** The three tests of the loop, as predicates on a raw line. *)
Definition isBlankLine (rawLine : jsstring) : bool :=
  match trim rawLine with [] => true | _ => false end.

Definition isCommentLine (rawLine : jsstring) : bool :=
  startsWith [HASH] (trim rawLine).

Definition isDeclarationLine (rawLine : jsstring) : bool :=
  negb (isBlankLine rawLine) && negb (isCommentLine rawLine)
  && includes EQUALS (trim rawLine).

Definition parseLines (st : list EnvEntry * list jsstring)
  (lines : list jsstring) : list EnvEntry * list jsstring :=
  fold_left parseLine lines st.

Definition parseEnvFile (content : jsstring) : list EnvEntry :=
  fst (parseLines ([], []) (split NL content)).

(** ** Options *)

(** [EnvTypesGeneratorOptions] as declared in [types/EnvTypesGenerator.d.ts]
    (all the declared members; the generator reads three of them). *)
Record EnvTypesGeneratorOptions := mkOptions {
  opt_envFiles : list jsstring;
  opt_outputPath : jsstring;
  opt_silent : option bool;
  opt_disablePartialType : option bool;
  opt_addExportEnds : option bool;
  opt_namespace : option jsstring;
  opt_interface : option jsstring;
  opt_useValuesAsTypes : option bool;
}.

(** ** The renderer *)

Definition generateJSDoc (comment : jsstring) : jsstring :=
  let lines :=
    join [NL] (map (fun line => lit "     * " ++ line) (split NL comment)) in
  lit "    /**" ++ [NL] ++ lines ++ [NL] ++ lit "     */".

Definition memberLine (disablePartialType : bool) (key : jsstring) : jsstring :=
  lit "    " ++ key ++ (if disablePartialType then [] else lit "?")
    ++ lit ": string;".

Definition renderEntry (disablePartialType : bool) (e : EnvEntry) : jsstring :=
  if negb (truthy (comment e)) then memberLine disablePartialType (key e)
  else
    let jsdoc := generateJSDoc (default [] (comment e)) in
    jsdoc ++ [NL] ++ memberLine disablePartialType (key e).

Definition generateInterfaceBody (disablePartialType : bool)
  (entries : list EnvEntry) : jsstring :=
  join [NL] (map (renderEntry disablePartialType) entries).

(** The local-time fields read from [new Date()]. *)
Record Date := mkDate {
  getFullYear : N;
  getMonth : N;      (* 0..11 *)
  getDate : N;
  getHours : N;
  getMinutes : N;
  getSeconds : N;
}.

Definition pad (n : N) : jsstring := padStart2 (toString n).

Definition generateContent (now : Date) : jsstring :=
  let year := toString (getFullYear now) in
  let month := pad (getMonth now + 1) in
  let day := pad (getDate now) in
  let hours := pad (getHours now) in
  let minutes := pad (getMinutes now) in
  let seconds := pad (getSeconds now) in
  lit "Generated: " ++ year ++ lit "-" ++ month ++ lit "-" ++ day ++ lit "T"
    ++ hours ++ lit ":" ++ minutes ++ lit ":" ++ seconds.

(** First line of the artifact: "// ⚠️ AUTO-GENERATED FILE — DO NOT EDIT"
    (U+26A0 U+FE0F and U+2014 are outside ASCII). *)
Definition bannerLine : jsstring :=
  lit "// " ++ [9888; 65039] ++ lit " AUTO-GENERATED FILE " ++ [8212]
    ++ lit " DO NOT EDIT".

Definition generateDTS (disablePartialType : bool) (now : Date)
  (entries : list EnvEntry) (sourceFile : jsstring) : jsstring :=
  let body := generateInterfaceBody disablePartialType entries in
  bannerLine ++ [NL]
  ++ lit "// Source: " ++ sourceFile ++ [NL]
  ++ lit "// " ++ generateContent now ++ [NL]
  ++ [NL]
  ++ lit "declare namespace NodeJS {" ++ [NL]
  ++ lit "  interface ProcessEnv {" ++ [NL]
  ++ body ++ [NL]
  ++ lit "  }" ++ [NL]
  ++ lit "}" ++ [NL]
  ++ [NL]
  ++ lit "export {};" ++ [NL].

(** [stripMetadata] of [shouldUpdate] *)
Definition stripMetadata (content : jsstring) : jsstring :=
  join [NL]
    (filter (fun line => negb (startsWith (lit "// Generated:") line) = true)
       (split NL content)).

(** ** The host: file system, console and exceptions

    A file-system object is a regular file with its content (as decoded by
    [readFileSync(_, 'utf-8')]) or a directory. The store is keyed by the
    absolute path that a path argument denotes, [path.resolve(process.cwd(), p)].
    Everything the program prints or changes on disk is appended to a trace. *)

Inductive errno := ENOENT | EISDIR | ENOTDIR | EEXIST.

Inductive exn :=
  | JsError (message : jsstring)              (* [new Error(message)] *)
  | SystemError (code : errno) (path : jsstring). (* thrown by [fs] *)

Inductive node := File (data : jsstring) | Directory.

Inductive event :=
  | ConsoleLog (args : list jsstring)
  | ConsoleError (args : list jsstring)
  | FsMkdir (path : jsstring)
  | FsWrite (path data : jsstring).

Record World := mkWorld {
  fs : gmap (list N) node;
  trace : list event;
}.

Inductive result (A : Type) :=
  | Return (a : A)
  | Throw (e : exn).
Arguments Return {A} a.
Arguments Throw {A} e.

(** Computations that read and change the world and may throw. *)
Definition M (A : Type) : Type := World -> result A * World.

Definition ret {A} (a : A) : M A := fun w => (Return a, w).

Definition bind {A B} (m : M A) (f : A -> M B) : M B := fun w =>
  match m w with
  | (Return a, w') => f a w'
  | (Throw e, w') => (Throw e, w')
  end.

Notation "'let*' x ':=' m 'in' k" := (bind m (fun x => k))
  (at level 10, x name, m at level 100, k at level 200, only parsing).
Notation "m ';;;' k" := (bind m (fun _ => k))
  (at level 100, k at level 200, right associativity, only parsing).

Definition throw {A} (e : exn) : M A := fun w => (Throw e, w).

(** [try { body } catch (error) { handler(error) }] *)
Definition tryCatch {A} (body : M A) (handler : exn -> M A) : M A := fun w =>
  match body w with
  | (Return a, w') => (Return a, w')
  | (Throw e, w') => handler e w'
  end.

Definition emit (e : event) : M unit := fun w =>
  (Return tt, {| fs := fs w; trace := trace w ++ [e] |}).

Definition console_log (msg : jsstring) : M unit := emit (ConsoleLog [msg]).
Definition console_error (args : list jsstring) : M unit :=
  emit (ConsoleError args).

Definition errnoName (c : errno) : jsstring :=
  match c with
  | ENOENT => lit "ENOENT"
  | EISDIR => lit "EISDIR"
  | ENOTDIR => lit "ENOTDIR"
  | EEXIST => lit "EEXIST"
  end.

(** [(error as Error).message] *)
Definition message (e : exn) : jsstring :=
  match e with
  | JsError m => m
  | SystemError c p => errnoName c ++ lit ": " ++ p
  end.

(** *** A small POSIX instance of the [path] functions, for the examples:
    working directory [cwd], no normalisation of [.] and [..]. *)

Definition SLASH : N := 47.
Definition COMMA : N := 44.
Definition QUOTE : N := 34.

Definition posixResolve (cwd p : jsstring) : jsstring :=
  if startsWith [SLASH] p then p else cwd ++ [SLASH] ++ p.

Fixpoint dropLastComponent (r : jsstring) : jsstring :=
  match r with
  | c :: r' => if c =? SLASH then r' else dropLastComponent r'
  | [] => []
  end.

Definition posixDirname (p : jsstring) : jsstring :=
  match rev (dropLastComponent (rev p)) with
  | [] => if includes SLASH p then [SLASH] else lit "."
  | d => d
  end.

(** ** The fields of the two classes *)

(** [EnvTypesGenerator]: the three private fields. *)
Record EnvTypesGenerator := mkGenerator {
  envFiles : list jsstring;
  outputPath : jsstring;
  disablePartialType : bool;
}.

(** [EnvTypesPlugin]: its options as passed, as resolved by the constructor,
    and the two private fields. *)
Record EnvTypesPluginOptions := mkPluginOptions {
  po_envFiles : option (list jsstring);
  po_outputPath : option jsstring;
  po_generatorScript : option jsstring;
  po_silent : option bool;
}.

(** [Required<EnvTypesPluginOptions>] *)
Record ResolvedPluginOptions := mkResolved {
  p_envFiles : list jsstring;
  p_outputPath : jsstring;
  p_generatorScript : jsstring;
  p_silent : bool;
}.

Record EnvTypesPlugin := mkPlugin {
  options : ResolvedPluginOptions;
  outputAbsolutePath : jsstring;
}.

(** ** Sample data for the examples

    A working directory [/app] that holds a [.env] file, and one that holds
    no env file at all. *)

Definition sampleResolve : jsstring -> jsstring := posixResolve (lit "/app").

Definition sampleDate : Date := mkDate 2024 0 15 10 30 0.
Definition laterDate : Date := mkDate 2024 5 1 23 59 59.

Definition sampleEnv : jsstring :=
  lit "# Database host" ++ [NL] ++ lit "DB_HOST=localhost" ++ [NL] ++ [NL]
  ++ lit "DB_PORT=5432 # no comment buffer here".

Definition sampleWorld : World :=
  {| fs := <[lit "/app/.env" := File sampleEnv]>
             (<[lit "/app" := Directory]> ∅);
     trace := [] |}.

Definition emptyWorld : World :=
  {| fs := <[lit "/app" := Directory]> ∅; trace := [] |}.

Definition sampleOptions : EnvTypesGeneratorOptions :=
  mkOptions [lit ".env.local"; lit ".env"] (lit "types/env.d.ts")
    None None None None None None.

Definition samplePlugin : EnvTypesPlugin :=
  {| options :=
       {| p_envFiles := [lit ".env"; lit ".env.example"];
          p_outputPath := lit "types/env.d.ts";
          p_generatorScript := lit "dist/EnvTypesGenerator.js";
          p_silent := false |};
     outputAbsolutePath := lit "/app/types/env.d.ts" |}.

Section Program.

(** [path.resolve(process.cwd(), p)] and [path.dirname(p)] of Node's [path]
    module: library calls whose behaviour is not part of the repository. *)
Variable path_resolve : jsstring -> jsstring.
Variable path_dirname : jsstring -> jsstring.

(** *** [fs] *)

Definition existsSync (p : jsstring) : M bool := fun w =>
  (Return (bool_decide (is_Some (fs w !! path_resolve p))), w).

Definition readFileSync (p : jsstring) : M jsstring := fun w =>
  match fs w !! path_resolve p with
  | Some (File data) => (Return data, w)
  | Some Directory => (Throw (SystemError EISDIR p), w)
  | None => (Throw (SystemError ENOENT p), w)
  end.

(** Creation of the missing ancestors of a directory, nearest last. *)
Fixpoint mkAncestors (fuel : nat) (d : jsstring) (m : gmap (list N) node)
  : option (gmap (list N) node) :=
  match m !! d with
  | Some Directory => Some m
  | Some (File _) => None
  | None =>
      match fuel with
      | O => Some (<[d := Directory]> m)
      | S n =>
          match mkAncestors n (path_dirname d) m with
          | Some m' => Some (<[d := Directory]> m')
          | None => None
          end
      end
  end.

(** [fs.mkdirSync(p, { recursive: true })] *)
Definition mkdirSync_recursive (p : jsstring) : M unit := fun w =>
  let d := path_resolve p in
  match fs w !! d with
  | Some Directory => (Return tt, w)
  | Some (File _) => (Throw (SystemError EEXIST p), w)
  | None =>
      match mkAncestors (length d) (path_dirname d) (fs w) with
      | Some m' =>
          (Return tt,
           {| fs := <[d := Directory]> m'; trace := trace w ++ [FsMkdir p] |})
      | None => (Throw (SystemError ENOTDIR p), w)
      end
  end.

(** [fs.writeFileSync(p, data, 'utf-8')]: the parent must be a directory and
    the target must not be one. *)
Definition writeFileSync (p data : jsstring) : M unit := fun w =>
  let k := path_resolve p in
  match fs w !! k with
  | Some Directory => (Throw (SystemError EISDIR p), w)
  | _ =>
      match fs w !! path_dirname k with
      | Some Directory =>
          (Return tt,
           {| fs := <[k := File data]> (fs w);
              trace := trace w ++ [FsWrite p data] |})
      | Some (File _) => (Throw (SystemError ENOTDIR p), w)
      | None => (Throw (SystemError ENOENT p), w)
      end
  end.

(** *** [class EnvTypesGenerator] *)

(** The constructor. *)
Definition newEnvTypesGenerator (options : EnvTypesGeneratorOptions)
  : EnvTypesGenerator :=
  {| envFiles := opt_envFiles options;
     outputPath := path_resolve (opt_outputPath options);
     disablePartialType := default false (opt_disablePartialType options) |}.

Section Methods.
Variable this : EnvTypesGenerator.

Definition noEnvFiles : exn :=
  JsError (lit "No env files found. Searched: "
           ++ join (lit ", ") (envFiles this)).

(** The [for (const file of this.envFiles)] loop of [findEnvFile]. *)
Fixpoint findEnvFileIn (files : list jsstring) : M jsstring :=
  match files with
  | [] => throw noEnvFiles
  | file :: files' =>
      let* found := existsSync file in
      if found then ret file else findEnvFileIn files'
  end.

Definition findEnvFile : M jsstring := findEnvFileIn (envFiles this).

Definition shouldUpdate (newContent : jsstring) : M bool :=
  let* found := existsSync (outputPath this) in
  if negb found then ret true
  else
    let* currentContent := readFileSync (outputPath this) in
    ret (bool_decide (stripMetadata currentContent ≠ stripMetadata newContent)).

Definition ensureOutputDirectory : M unit :=
  let dir := path_dirname (outputPath this) in
  let* found := existsSync dir in
  if negb found then
    mkdirSync_recursive dir;;;
    console_log (lit "[env-types] Created directory: " ++ dir)
  else ret tt.

Definition upToDateNotice : jsstring :=
  lit "[env-types] Types are up to date, skipping write".

(** "[env-types] Generated N keys from F → O" (the arrow is U+2192). *)
Definition generatedNotice (entries : list EnvEntry) (envFile : jsstring)
  : jsstring :=
  lit "[env-types] Generated " ++ toString (N.of_nat (length entries))
    ++ lit " keys from " ++ envFile ++ lit " " ++ [8594] ++ lit " "
    ++ outputPath this.

(** [generate()]; [now] is the value of [new Date()] during the call. *)
Definition generate (now : Date) : M unit :=
  let* envFile := findEnvFile in
  let* content := readFileSync envFile in
  let entries := parseEnvFile content in
  let dts := generateDTS (disablePartialType this) now entries envFile in
  let* update := shouldUpdate dts in
  if negb update then console_log upToDateNotice
  else
    ensureOutputDirectory;;;
    writeFileSync (outputPath this) dts;;;
    console_log (generatedNotice entries envFile).

(** Lines 219-220 of [generate] alone: the source a run reads, as the
    selected file and its content. *)
Definition readSource : M (jsstring * jsstring) :=
  let* envFile := findEnvFile in
  let* content := readFileSync envFile in
  ret (envFile, content).

Definition sourceOf (w : World) : result (jsstring * jsstring) :=
  fst (readSource w).

(** Lines 221-234 of [generate], for a source already read. *)
Definition generateFrom (now : Date) (envFile content : jsstring) : M unit :=
  let entries := parseEnvFile content in
  let dts := generateDTS (disablePartialType this) now entries envFile in
  let* update := shouldUpdate dts in
  if negb update then console_log upToDateNotice
  else
    ensureOutputDirectory;;;
    writeFileSync (outputPath this) dts;;;
    console_log (generatedNotice entries envFile).

End Methods.

(** *** CLI mode ([require.main === module]) with the two environment
    variables it reads. The result is the exit status of the process: 1 from
    [process.exit(1)], 1 after an uncaught exception, which Node reports on
    the error stream, and 0 otherwise. *)
Definition cliMain (ENV_FILES OUTPUT_PATH : option jsstring) (now : Date)
  : World -> N * World := fun w =>
  let envFiles :=
    split COMMA
      (if truthy ENV_FILES then default [] ENV_FILES
       else lit ".env.example,.env") in
  if negb (truthy OUTPUT_PATH) then
    (1, snd (console_error
               [lit "[env-types] ERROR: OUTPUT_PATH environment variable is required"]
               w))
  else
    let generator :=
      newEnvTypesGenerator
        (mkOptions envFiles (default [] OUTPUT_PATH)
           None None None None None None) in
    match generate generator now w with
    | (Return _, w') => (0, w')
    | (Throw e, w') => (1, snd (console_error [message e] w'))
    end.

(** [execSync] of the bundled generator script: the child runs [cliMain]
    with the variables passed in [env]; what it prints reaches the console
    only when stdio is inherited; a child that ends with a non-zero status
    makes [execSync] throw. *)
Definition isConsole (e : event) : bool :=
  match e with
  | ConsoleLog _ | ConsoleError _ => true
  | _ => false
  end.

Definition lookupEnv (name : jsstring) (env : list (jsstring * jsstring))
  : option jsstring :=
  snd <$> List.find (fun kv => bool_decide (fst kv = name)) env.

Definition nodeGeneratorScript (now : Date) (command : jsstring)
  (env : list (jsstring * jsstring)) (piped : bool) : M unit := fun w =>
  let '(status, w') :=
    cliMain (lookupEnv (lit "ENV_FILES") env) (lookupEnv (lit "OUTPUT_PATH") env)
      now {| fs := fs w; trace := [] |} in
  let printed :=
    if piped then List.filter (fun e => negb (isConsole e)) (trace w')
    else trace w' in
  let w'' := {| fs := fs w'; trace := trace w ++ printed |} in
  if status =? 0 then (Return tt, w'')
  else (Throw (JsError (lit "Command failed: " ++ command)), w'').

(** *** [class EnvTypesPlugin] *)

(** [child_process.execSync] for an arbitrary generator script. *)
Variable execSync : jsstring -> list (jsstring * jsstring) -> bool -> M unit.

(** [path.resolve(__dirname, 'EnvTypesGenerator.js')] *)
Variable defaultGeneratorScript : jsstring.

Section PluginMethods.
Variable this : EnvTypesPlugin.

Definition pluginEnsureOutputDirectory : M unit :=
  let outputDir := path_dirname (outputAbsolutePath this) in
  let* found := existsSync outputDir in
  if negb found then
    tryCatch
      (mkdirSync_recursive outputDir;;;
       if negb (p_silent (options this)) then
         console_log (lit "[EnvTypesPlugin] Created directory: " ++ outputDir)
       else ret tt)
      (fun error =>
         throw (JsError
           (lit "[EnvTypesPlugin] Failed to create output directory: "
            ++ outputDir ++ [NL] ++ message error)))
  else ret tt.

Definition failurePrefix : jsstring :=
  lit "[EnvTypesPlugin] Failed to generate env types:".

(** The body of the [try] block of [generateTypes]. *)
Definition generationStep : M unit :=
  pluginEnsureOutputDirectory;;;
  let env :=
    [ (lit "ENV_FILES", join [COMMA] (p_envFiles (options this)));
      (lit "OUTPUT_PATH", p_outputPath (options this)) ] in
  execSync (lit "node " ++ p_generatorScript (options this)) env
    (p_silent (options this)).

Definition generateTypes : M unit :=
  tryCatch generationStep
    (fun error => console_error [failurePrefix; message error]).

(** [file.endsWith(envFile)] *)
Definition endsWith (suffix s : jsstring) : bool :=
  startsWith (rev suffix) (rev s).

Definition hasEnvFileChanged (changedFiles : list jsstring) : bool :=
  existsb
    (fun file =>
       existsb (fun envFile => endsWith envFile file)
         (p_envFiles (options this)))
    changedFiles.

(** The [beforeCompile] hook registered by [apply]: [callback] is the
    host's completion callback. *)
Definition beforeCompileHook (callback : M unit) : M unit :=
  generateTypes;;;
  callback.

(** The [watchRun] hook registered by [apply]; [modifiedFiles] is
    [compiler.modifiedFiles], which may be undefined. *)
Definition watchRunHook (modifiedFiles : option (list jsstring)) : M unit :=
  match modifiedFiles with
  | Some changedFiles =>
      if hasEnvFileChanged changedFiles then generateTypes else ret tt
  | None => ret tt
  end.

End PluginMethods.

(** The constructor, for an options object (the string shorthand is
    [{ outputPath: options }]). *)
Definition newEnvTypesPlugin (o : EnvTypesPluginOptions) : M EnvTypesPlugin :=
  if negb (truthy (po_outputPath o)) then
    throw (JsError
      (lit "[EnvTypesPlugin] outputPath is required. "
       ++ lit "Usage: new EnvTypesPlugin(" ++ [QUOTE] ++ lit "path/to/env.d.ts"
       ++ [QUOTE] ++ lit ") or new EnvTypesPlugin({ outputPath: " ++ [QUOTE]
       ++ lit "..." ++ [QUOTE] ++ lit " })"))
  else
    let opts :=
      {| p_envFiles := default [lit ".env"; lit ".env.example"] (po_envFiles o);
         p_outputPath := default [] (po_outputPath o);
         p_generatorScript :=
           if truthy (po_generatorScript o)
           then default [] (po_generatorScript o)
           else defaultGeneratorScript;
         p_silent := default false (po_silent o) |} in
    let plugin :=
      {| options := opts; outputAbsolutePath := path_resolve (p_outputPath opts) |} in
    pluginEnsureOutputDirectory plugin;;;
    ret plugin.


(** *** The rest of [class EnvTypesPlugin]: dependency tracking, the watch
    options and the string shorthand of the constructor *)

(** [path.resolve(from, p)] with two arguments. *)
Variable path_resolve_from : jsstring -> jsstring -> jsstring.

(** A watch pattern of webpack's [watchOptions.ignored]: a string or a
    regular expression (an object, kept by its source text). *)
Inductive IgnoredPattern :=
  | PatternString (s : jsstring)
  | PatternRegExp (source : jsstring).

Inductive Ignored :=
  | IgnoredArray (patterns : list IgnoredPattern)
  | IgnoredSingle (pattern : IgnoredPattern).

(** [compiler.options.watchOptions]: the [ignored] member and, kept as they
    are by the spread, the other members. *)
Record WatchOptions := mkWatchOptions {
  ignored : option Ignored;
  otherWatchOptions : list (jsstring * jsstring);
}.

(** Truthiness of a string or an object. *)
Definition patternTruthy (p : IgnoredPattern) : bool :=
  match p with
  | PatternString [] => false
  | _ => true
  end.

Section PluginTracking.
Variable this : EnvTypesPlugin.

(** The [forEach] of [addFileDependencies], over the env files still to be
    visited; [fileDependencies] is the set [compilation.fileDependencies]. *)
Fixpoint addFileDependenciesIn (files : list jsstring) (contextPath : jsstring)
  (fileDependencies : gset (list N)) : M (gset (list N)) :=
  match files with
  | [] => ret fileDependencies
  | file :: files' =>
      let fullPath := path_resolve_from contextPath file in
      let* found := existsSync fullPath in
      addFileDependenciesIn files' contextPath
        (if found then {[fullPath]} ∪ fileDependencies else fileDependencies)
  end.

Definition addFileDependencies (contextPath : jsstring)
  (fileDependencies : gset (list N)) : M (gset (list N)) :=
  addFileDependenciesIn (p_envFiles (options this)) contextPath fileDependencies.

Definition excludeFromWatch (fileDependencies : gset (list N))
  : M (gset (list N)) :=
  let* found := existsSync (outputAbsolutePath this) in
  ret (if found then fileDependencies ∖ {[outputAbsolutePath this]}
       else fileDependencies).

(** The [processAssets] hook registered by [apply]; [context] is
    [compiler.context]. *)
Definition processAssetsHook (context : jsstring)
  (fileDependencies : gset (list N)) : M (gset (list N)) :=
  let* tracked := addFileDependencies context fileDependencies in
  excludeFromWatch tracked.

(** The [afterCompile] hook registered by [apply]. *)
Definition afterCompileHook (fileDependencies : gset (list N))
  : M (gset (list N)) :=
  excludeFromWatch fileDependencies.

(** The first statements of [apply]: the new value of
    [compiler.options.watchOptions]. *)
Definition applyWatchOptions (watchOptions : option WatchOptions)
  : WatchOptions :=
  let originalWatchOptions :=
    default {| ignored := None; otherWatchOptions := [] |} watchOptions in
  let existingIgnored := ignored originalWatchOptions in
  let ignoredArray :=
    match existingIgnored with
    | Some (IgnoredArray patterns) => patterns
    | Some (IgnoredSingle pattern) =>
        if patternTruthy pattern then [pattern] else []
    | None => []
    end ++ [PatternString (outputAbsolutePath this)] in
  {| ignored := Some (IgnoredArray ignoredArray);
     otherWatchOptions := otherWatchOptions originalWatchOptions |}.

End PluginTracking.

(** The constructor with its argument of type [EnvTypesPluginOptions | string]. *)
Definition constructEnvTypesPlugin (options : jsstring + EnvTypesPluginOptions)
  : M EnvTypesPlugin :=
  match options with
  | inl outputPath =>
      newEnvTypesPlugin (mkPluginOptions None (Some outputPath) None None)
  | inr o => newEnvTypesPlugin o
  end.

(** *** The shape of the timestamp *)

Definition CR : N := 13.

Definition isDigit (c : N) : bool := (48 <=? c) && (c <=? 57).

(** A pattern is a sequence of digit classes [\d] and literal characters;
    [matchesPattern] is an anchored match. *)
Inductive token := Digit | Char (c : N).

Fixpoint matchesPattern (p : list token) (s : jsstring) : bool :=
  match p, s with
  | [], [] => true
  | Digit :: p', c :: s' => isDigit c && matchesPattern p' s'
  | Char a :: p', c :: s' => (a =? c) && matchesPattern p' s'
  | _, _ => false
  end.

(** [/Generated: \d{4}-\d{2}-\d{2}T\d{2}:\d{2}:\d{2}/], the expression of the
    test "should include generation timestamp". *)
Definition timestampPattern : list token :=
  map Char (lit "Generated: ")
  ++ [Digit; Digit; Digit; Digit; Char 45; Digit; Digit; Char 45; Digit; Digit;
      Char 84; Digit; Digit; Char 58; Digit; Digit; Char 58; Digit; Digit].

(** The test of the [filter] in [stripMetadata]: the lines that are kept. *)
Definition keepLine (line : jsstring) : Prop :=
  negb (startsWith (lit "// Generated:") line) = true.

(** ** Lemmas on strings *)

Lemma includes_app c a b : includes c (a ++ b) = includes c a || includes c b.
Proof. apply existsb_app. Qed.

Lemma includes_cons c x s : includes c (x :: s) = (c =? x) || includes c s.
Proof. reflexivity. Qed.

Lemma split_cons c x s :
  split c (x :: s) =
  if x =? c then [] :: split c s
  else match split c s with
       | h :: t => (x :: h) :: t
       | [] => [[x]]
       end.
Proof.
  unfold split; simpl. destruct (split1 c s) as [h t]. by destruct (x =? c).
Qed.

Lemma split_nonempty c s : split c s ≠ [].
Proof. unfold split. by destruct (split1 c s). Qed.

Lemma split_app_sep c a b : split c (a ++ c :: b) = split c a ++ split c b.
Proof.
  induction a as [|x a IH]; simpl.
  - by rewrite split_cons, N.eqb_refl.
  - rewrite !split_cons, IH. destruct (x =? c); [done|].
    destruct (split c a) eqn:E; [by apply split_nonempty in E|done].
Qed.

Lemma split_single c s : includes c s = false → split c s = [s].
Proof.
  induction s as [|x s IH]; [done|].
  rewrite includes_cons, split_cons. intros [Hx Hs]%orb_false_elim.
  rewrite N.eqb_sym, Hx. by rewrite IH.
Qed.

Lemma split_pieces c s : Forall (fun l => includes c l = false) (split c s).
Proof.
  induction s as [|x s IH]; [by repeat constructor|].
  rewrite split_cons. destruct (x =? c) eqn:E; [by constructor|].
  pose proof (split_nonempty c s).
  destruct (split c s) as [|h t]; [done|].
  inversion_clear IH. constructor; [|done].
  by rewrite includes_cons, N.eqb_sym, E.
Qed.

Lemma join_cons sep x y l : join sep (x :: y :: l) = x ++ sep ++ join sep (y :: l).
Proof. reflexivity. Qed.

Lemma join_split c s : join [c] (split c s) = s.
Proof.
  induction s as [|x s IH]; [done|].
  rewrite split_cons. destruct (x =? c) eqn:E.
  - apply N.eqb_eq in E as ->. pose proof (split_nonempty c s).
    destruct (split c s) as [|h t] eqn:Es; [done|].
    rewrite join_cons, IH. done.
  - destruct (split c s) as [|h [|h' t]]; simpl in *; by rewrite <- IH.
Qed.

Lemma split_join c l :
  l ≠ [] → Forall (fun s => includes c s = false) l → split c (join [c] l) = l.
Proof.
  induction l as [|x l IH]; [done|]. intros _ Hall.
  inversion_clear Hall as [|? ? Hx Hl].
  destruct l as [|y l]; [by apply split_single|].
  rewrite join_cons. change (x ++ [c] ++ ?r) with (x ++ c :: r).
  rewrite split_app_sep, (split_single _ _ Hx), IH; done.
Qed.

(** What [split1] returns: the text before the first separator and, joined
    again, the whole text after it. *)
Lemma split1_first c s lft rest :
  split1 c s = (lft, rest) → includes c s = true →
  s = lft ++ c :: join [c] rest ∧ includes c lft = false.
Proof.
  revert lft rest. induction s as [|x s IH]; [done|].
  intros lft rest. simpl. destruct (split1 c s) as [h t] eqn:E.
  destruct (x =? c) eqn:Ex.
  - intros [= <- <-] _. apply N.eqb_eq in Ex as ->. split; [|done].
    simpl. f_equal. pose proof (join_split c s) as J. unfold split in J.
    by rewrite E in J.
  - intros [= <- <-]. rewrite includes_cons, N.eqb_sym, Ex. simpl. intros Hs.
    destruct (IH h t eq_refl Hs) as [-> Hh]. by rewrite Hh.
Qed.

Lemma startsWith_app p s : startsWith p s = true → s = p ++ drop (length p) s.
Proof.
  revert s. induction p as [|a p IH]; intros [|b s]; simpl; try done.
  intros [->%N.eqb_eq H]%andb_prop. f_equal. by apply IH.
Qed.

(** White space *)

Lemma trimStart_suffix s : ∃ p, s = p ++ trimStart s.
Proof.
  induction s as [|c s [p IH]]; [by exists []|]. simpl.
  destruct (isWhiteSpace c); [|by exists []].
  exists (c :: p). simpl. by f_equal.
Qed.

Lemma trimEnd_prefix s : ∃ q, s = trimEnd s ++ q.
Proof.
  unfold trimEnd. destruct (trimStart_suffix (rev s)) as [p Hp].
  exists (rev p). rewrite <- rev_app_distr, <- Hp. by rewrite rev_involutive.
Qed.

Lemma trim_infix s : ∃ p q, s = p ++ trim s ++ q.
Proof.
  unfold trim. destruct (trimStart_suffix s) as [p Hp].
  destruct (trimEnd_prefix (trimStart s)) as [q Hq].
  exists p, q. by rewrite <- Hq.
Qed.

Lemma trimStart_head s c r : trimStart s = c :: r → isWhiteSpace c = false.
Proof.
  induction s as [|x s IH]; [done|]. simpl.
  destruct (isWhiteSpace x) eqn:E; [done|]. by intros [= <- <-].
Qed.

Lemma trimStart_fixed c r : isWhiteSpace c = false → trimStart (c :: r) = c :: r.
Proof. intros H. simpl. by rewrite H. Qed.

Lemma trim_head s c r : trim s = c :: r → isWhiteSpace c = false.
Proof.
  unfold trim. destruct (trimEnd_prefix (trimStart s)) as [q Hq].
  intros E. rewrite E in Hq. by apply (trimStart_head s c (r ++ q)).
Qed.

Lemma trim_last s c : last (trim s) = Some c → isWhiteSpace c = false.
Proof.
  unfold trim, trimEnd. intros E.
  destruct (trimStart (rev (trimStart s))) as [|x r] eqn:Er; [done|].
  simpl in E. rewrite last_snoc in E. injection E as <-.
  by apply trimStart_head in Er.
Qed.

Lemma trimEnd_fixed s c : last s = Some c → isWhiteSpace c = false → trimEnd s = s.
Proof.
  intros Hl Hc. unfold trimEnd.
  destruct (rev s) as [|x r] eqn:E.
  - apply (f_equal (@rev _)) in E. rewrite rev_involutive in E. by subst.
  - assert (s = rev r ++ [x]) as ->.
    { apply (f_equal (@rev _)) in E. by rewrite rev_involutive in E. }
    rewrite last_snoc in Hl. injection Hl as ->.
    by rewrite trimStart_fixed.
Qed.

Lemma trim_idempotent s : trim (trim s) = trim s.
Proof.
  destruct (trim s) as [|c r] eqn:E; [done|].
  pose proof (trim_head _ _ _ E) as Hc.
  unfold trim at 1. rewrite trimStart_fixed by done.
  destruct (last (c :: r)) as [z|] eqn:Hz.
  - apply (trimEnd_fixed _ z Hz). apply (trim_last s). by rewrite E.
  - by apply last_None in Hz.
Qed.

Lemma includes_infix c p s q :
  includes c (p ++ s ++ q) = false → includes c s = false.
Proof.
  rewrite !includes_app. intros [_ [H _]%orb_false_elim]%orb_false_elim. done.
Qed.

Lemma includes_trim c s : includes c s = false → includes c (trim s) = false.
Proof.
  destruct (trim_infix s) as (p & q & E). intros H. rewrite E in H.
  by apply includes_infix in H.
Qed.

Lemma includes_drop c n s : includes c s = false → includes c (drop n s) = false.
Proof.
  intros H. rewrite <- (take_drop n s), includes_app in H.
  by apply orb_false_elim in H as [_ ?].
Qed.

Lemma includes_stripCommentMarker c s :
  includes c s = false → includes c (stripCommentMarker s) = false.
Proof.
  destruct s as [|x [|w r]]; simpl; [done| |].
  - by destruct (x =? HASH).
  - destruct (x =? HASH); [|done]. rewrite !orb_false_iff.
    intros (_ & Hw & Hr). destruct (isWhiteSpace w); [done|].
    simpl. by rewrite Hw.
Qed.

(** Decimal numerals contain digits only. *)

Lemma includes_digits c (d : Decimal.uint) :
  (c <? 48) = true → includes c (lit (NilEmpty.string_of_uint d)) = false.
Proof.
  intros Hc. apply N.ltb_lt in Hc.
  induction d; simpl; [done|..];
    unfold lit in *; simpl; rewrite IHd, orb_false_r;
    apply N.eqb_neq; lia.
Qed.

Lemma includes_toString c n : (c <? 48) = true → includes c (toString n) = false.
Proof.
  intros Hc. unfold toString, NilZero.string_of_uint.
  destruct (N.to_uint n) eqn:E; try by apply includes_digits.
  apply N.ltb_lt in Hc. simpl. rewrite orb_false_r. apply N.eqb_neq. lia.
Qed.

Lemma includes_pad c n : (c <? 48) = true → includes c (pad n) = false.
Proof.
  intros Hc. unfold pad, padStart2.
  rewrite includes_app, includes_toString, orb_false_r by done.
  apply N.ltb_lt in Hc.
  destruct (2 - length (toString n))%nat as [|[|[|k]]] eqn:E; simpl;
    try done; try lia;
    rewrite ?orb_false_r, ?orb_false_iff; repeat split; apply N.eqb_neq; lia.
Qed.

(** ** Lemmas on the parser *)

Lemma parseLines_app st a b :
  parseLines st (a ++ b) = parseLines (parseLines st a) b.
Proof. apply fold_left_app. Qed.

Lemma parseLines_cons st l lines :
  parseLines st (l :: lines) = parseLines (parseLine st l) lines.
Proof. reflexivity. Qed.

Lemma parseLine_blank es buf raw :
  isBlankLine raw = true → parseLine (es, buf) raw = (es, []).
Proof. unfold isBlankLine, parseLine. by destruct (trim raw). Qed.

Lemma parseLine_comment es buf raw :
  isCommentLine raw = true →
  parseLine (es, buf) raw = (es, buf ++ [stripCommentMarker (trim raw)]).
Proof.
  unfold isCommentLine, parseLine. destruct (trim raw) eqn:E; [done|].
  by intros ->.
Qed.

Lemma parseLine_declaration es buf raw :
  isDeclarationLine raw = true →
  parseLine (es, buf) raw = (es ++ [declaration buf (trim raw)], []).
Proof.
  unfold isDeclarationLine, isBlankLine, isCommentLine, parseLine.
  destruct (trim raw) eqn:E; [done|].
  intros [[_ Hc%negb_true_iff]%andb_prop He]%andb_prop. by rewrite Hc, He.
Qed.

Lemma parseLine_other es buf raw :
  isCommentLine raw = false → snd (parseLine (es, buf) raw) = [].
Proof.
  unfold isCommentLine, parseLine. destruct (trim raw) eqn:E; [done|].
  intros ->. by destruct (negb _).
Qed.

(** The entries found so far are only ever extended. *)
Lemma parseLine_entries es buf raw :
  parseLine (es, buf) raw =
  (es ++ fst (parseLine ([], buf) raw), snd (parseLine ([], buf) raw)).
Proof.
  unfold parseLine. destruct (trim raw); simpl; [by rewrite app_nil_r|].
  repeat case_match; simpl; by rewrite ?app_nil_r.
Qed.

Lemma parseLines_entries es buf lines :
  parseLines (es, buf) lines =
  (es ++ fst (parseLines ([], buf) lines), snd (parseLines ([], buf) lines)).
Proof.
  revert es buf. induction lines as [|l lines IH]; intros es buf.
  - simpl. by rewrite app_nil_r.
  - rewrite !parseLines_cons, parseLine_entries.
    destruct (parseLine ([], buf) l) as [es1 buf1]; simpl.
    rewrite IH, (IH es1). simpl. by rewrite app_assoc.
Qed.

Lemma parseLines_comments es buf cs :
  Forall (fun c => isCommentLine c = true) cs →
  parseLines (es, buf) cs =
  (es, buf ++ map (fun c => stripCommentMarker (trim c)) cs).
Proof.
  intros H. revert buf. induction H as [|c cs Hc _ IH]; intros buf.
  - simpl. by rewrite app_nil_r.
  - rewrite parseLines_cons, parseLine_comment, IH by done.
    by rewrite <- app_assoc.
Qed.

(** After a line that is not a comment the buffer is empty. *)
Lemma buffer_after st pre :
  match last pre with
  | Some l => isCommentLine l = false
  | None => snd st = []
  end →
  snd (parseLines st pre) = [].
Proof.
  destruct (last pre) as [l|] eqn:E.
  - apply last_Some in E as [pre' ->]. intros Hl.
    rewrite parseLines_app, parseLines_cons.
    destruct (parseLines st pre') as [es buf]. by apply parseLine_other.
  - apply last_None in E as ->. done.
Qed.

Lemma parseEnvFile_lines lines :
  Forall (fun l => includes NL l = false) lines →
  parseEnvFile (join [NL] lines) = fst (parseLines ([], []) lines).
Proof.
  intros H. unfold parseEnvFile. destruct lines as [|l lines]; [done|].
  by rewrite split_join.
Qed.

Lemma join_snoc_nonempty sep (ps : list jsstring) (x : jsstring) :
  x ≠ [] → join sep (ps ++ [x]) ≠ [].
Proof.
  intros Hx. induction ps as [|p ps IH]; [done|].
  change ((p :: ps) ++ [x]) with (p :: (ps ++ [x])).
  destruct (ps ++ [x]) as [|y r] eqn:E; [by destruct ps|].
  rewrite join_cons. intros H.
  apply app_eq_nil in H as [_ H]. by apply app_eq_nil in H as [_ H].
Qed.

Lemma truthy_Some (s : jsstring) : s ≠ [] → truthy (Some s) = true.
Proof. by destruct s. Qed.

Lemma key_declaration buf line :
  key (declaration buf line) = trim (fst (split1 EQUALS (cleaned line))).
Proof. unfold declaration. by destruct (split1 EQUALS (cleaned line)). Qed.

Lemma includes_cleaned c line :
  includes c line = false → includes c (cleaned line) = false.
Proof.
  unfold cleaned, slice. destruct (startsWith _ line); [|done].
  apply includes_drop.
Qed.

Lemma includes_cleaned_equals line :
  includes EQUALS line = true → includes EQUALS (cleaned line) = true.
Proof.
  unfold cleaned, slice. destruct (startsWith (lit "export ") line) eqn:E; [|done].
  apply startsWith_app in E. rewrite E at 1. by rewrite includes_app.
Qed.

Lemma includes_inlineComment c v ic :
  includes c v = false → inlineComment v = Some ic → includes c ic = false.
Proof.
  unfold inlineComment, slice. destruct (indexOf HASH v); [|done].
  intros H [= <-]. by apply includes_trim, includes_drop.
Qed.

(** A declaration line is its key text, the first [=], and the value part. *)
Lemma declaration_line_parts raw :
  isDeclarationLine raw = true →
  ∃ lft rest,
    split1 EQUALS (cleaned (trim raw)) = (lft, rest)
    ∧ cleaned (trim raw) = lft ++ EQUALS :: valuePart rest
    ∧ includes EQUALS lft = false.
Proof.
  intros [_ He]%andb_prop. apply includes_cleaned_equals in He.
  destruct (split1 EQUALS (cleaned (trim raw))) as [lft rest] eqn:E.
  exists lft, rest. split; [done|]. by apply split1_first.
Qed.

(** ** The parser and the renderer: the properties of the specification *)

Lemma comment_declaration buf line lft rest :
  split1 EQUALS (cleaned line) = (lft, rest) →
  comment (declaration buf line) =
  match comments buf (inlineComment (valuePart rest)) with
  | [] => None
  | _ => Some (join [NL] (comments buf (inlineComment (valuePart rest))))
  end.
Proof. unfold declaration. intros ->. reflexivity. Qed.

Lemma declaration_parts buf line lft rest :
  split1 EQUALS (cleaned line) = (lft, rest) →
  declaration buf line =
  {| key := trim lft;
     comment := match comments buf (inlineComment (valuePart rest)) with
                | [] => None
                | _ => Some (join [NL] (comments buf (inlineComment (valuePart rest))))
                end |}.
Proof. unfold declaration. intros ->. reflexivity. Qed.

Lemma comments_nil ic :
  match comments [] ic with
  | [] => None
  | _ => Some (join [NL] (comments [] ic))
  end = if truthy ic then ic else None.
Proof. unfold comments. by destruct ic as [[|c s]|]. Qed.

Lemma parseEnvFile_single raw :
  includes NL raw = false → isDeclarationLine raw = true →
  parseEnvFile raw = [declaration [] (trim raw)].
Proof.
  intros Hnl Hd. unfold parseEnvFile.
  rewrite split_single by done.
  by rewrite parseLines_cons, parseLine_declaration.
Qed.

(** C2: a declaration line is split at its first [=] only. In every state of
    the parser, and so wherever the line stands in a file, a declaration line
    adds exactly one entry; its key is the trimmed text before the first [=]
    (of the line without its optional [export ] prefix), everything after
    that [=], later [=] included, is the value part, and with partial types
    enabled (the default) the entry renders as the member [key?: string;],
    preceded by a doc block only when the entry has a comment. A source that
    is this one line has exactly this one entry. *)
Theorem declaration_splits_on_first_equals es buf (raw : jsstring) :
  isDeclarationLine raw = true →
  ∃ lft rest,
    split1 EQUALS (cleaned (trim raw)) = (lft, rest)
    ∧ cleaned (trim raw) = lft ++ EQUALS :: valuePart rest
    ∧ (startsWith (lit "export ") (trim raw) = false →
       trim raw = lft ++ EQUALS :: valuePart rest)
    ∧ includes EQUALS lft = false
    ∧ let e :=
        {| key := trim lft;
           comment :=
             match comments buf (inlineComment (valuePart rest)) with
             | [] => None
             | _ => Some (join [NL]
                            (comments buf (inlineComment (valuePart rest))))
             end |} in
      parseLine (es, buf) raw = (es ++ [e], [])
      ∧ renderEntry false e
        = (if truthy (comment e)
           then generateJSDoc (default [] (comment e)) ++ [NL]
           else [])
          ++ lit "    " ++ trim lft ++ lit "?" ++ lit ": string;"
      ∧ (∀ (content : jsstring) pre post,
           split NL content = pre ++ raw :: post →
           parseLines ([], []) pre = (es, buf) →
           ∃ later, parseEnvFile content = es ++ e :: later)
      ∧ (includes NL raw = false →
         parseEnvFile raw =
           [ {| key := trim lft;
                comment := if truthy (inlineComment (valuePart rest))
                           then inlineComment (valuePart rest) else None |} ]
         ∧ generateInterfaceBody false (parseEnvFile raw) =
             (if truthy (inlineComment (valuePart rest))
              then generateJSDoc (default [] (inlineComment (valuePart rest)))
                   ++ [NL]
              else [])
             ++ lit "    " ++ trim lft ++ lit "?" ++ lit ": string;").
Proof.
  intros Hd.
  destruct (declaration_line_parts raw Hd) as (lft & rest & Hs & Hc & Hl).
  exists lft, rest.
  split; [done|]. split; [done|]. split.
  { intros He. unfold cleaned in Hc. by rewrite He in Hc. }
  split; [done|]. intros e.
  assert (parseLine (es, buf) raw = (es ++ [e], [])) as Hp.
  { rewrite parseLine_declaration by done.
    by rewrite (declaration_parts _ _ _ _ Hs). }
  split; [done|]. split; [|split].
  - unfold renderEntry, memberLine. destruct (truthy (comment e)); simpl negb;
      cbv iota zeta; [|done]. by rewrite <- !app_assoc.
  - intros content pre post Hsplit Hpre. unfold parseEnvFile.
    rewrite Hsplit, parseLines_app, Hpre, parseLines_cons, Hp.
    rewrite parseLines_entries. simpl. rewrite <- app_assoc.
    by eexists.
  - intros Hnl. split.
    + rewrite parseEnvFile_single by done.
      by rewrite (declaration_parts _ _ _ _ Hs), comments_nil.
    + rewrite parseEnvFile_single by done.
      unfold generateInterfaceBody, renderEntry. simpl.
      rewrite key_declaration, Hs, (comment_declaration _ _ _ _ Hs), comments_nil.
      simpl. destruct (inlineComment (valuePart rest)) as [[|c s]|]; try done.
      simpl. by rewrite <- !app_assoc.
Qed.

(** C9, amended: the key of the entry produced for a declaration line is the
    trimmed text before the first [=]: it has no white space at either end,
    and it may be empty. *)
Theorem declaration_key_trimmed es buf (raw : jsstring) :
  isDeclarationLine raw = true →
  ∃ e lft rest,
    parseLine (es, buf) raw = (es ++ [e], [])
    ∧ split1 EQUALS (cleaned (trim raw)) = (lft, rest)
    ∧ key e = trim lft
    ∧ trim (key e) = key e
    ∧ (∀ c r, key e = c :: r → isWhiteSpace c = false)
    ∧ (∀ c, last (key e) = Some c → isWhiteSpace c = false).
Proof.
  intros Hd.
  destruct (declaration_line_parts raw Hd) as (lft & rest & Hs & _ & _).
  exists (declaration buf (trim raw)), lft, rest.
  rewrite parseLine_declaration, key_declaration, Hs by done. simpl.
  repeat split; try done.
  - apply trim_idempotent.
  - apply trim_head.
  - apply trim_last.
Qed.

(** C3: a key line preceded by a block [cs] of comment lines (the whole
    block: the line before it, if any, is not a comment) and carrying an inline
    comment [ic] yields one entry whose comment is the text of the comment
    lines, in file order, then the inline comment, joined by newlines; the
    entry renders as a doc block with one prefixed line for each of them,
    immediately followed by the member line. *)
Theorem comments_round_trip (content : jsstring) pre cs k post lft rest ic d :
  split NL content = pre ++ cs ++ k :: post →
  match last pre with
  | Some l => isCommentLine l = false
  | None => True
  end →
  Forall (fun c => isCommentLine c = true) cs →
  isDeclarationLine k = true →
  split1 EQUALS (cleaned (trim k)) = (lft, rest) →
  inlineComment (valuePart rest) = Some ic →
  ic ≠ [] →
  let paragraphs := map (fun c => stripCommentMarker (trim c)) cs ++ [ic] in
  let e := {| key := trim lft; comment := Some (join [NL] paragraphs) |} in
  (∃ later,
     parseEnvFile content = fst (parseLines ([], []) pre) ++ e :: later)
  ∧ renderEntry d e =
      lit "    /**" ++ [NL]
      ++ join [NL] (map (fun p => lit "     * " ++ p) paragraphs) ++ [NL]
      ++ lit "     */" ++ [NL]
      ++ memberLine d (trim lft).
Proof.
  intros Hsplit Hpre Hcs Hk Hs Hic Hne paragraphs e.
  pose proof (split_pieces NL content) as Hfree. rewrite Hsplit in Hfree.
  apply Forall_app in Hfree as [_ Hfree].
  apply Forall_app in Hfree as [Hfcs Hfk]. inversion_clear Hfk as [|? ? Hfk' _].
  assert (Forall (fun p => includes NL p = false) paragraphs) as Hpar.
  { apply Forall_app. split.
    - apply Forall_map. eapply Forall_impl; [exact Hfcs|]. simpl.
      intros c Hc. by apply includes_stripCommentMarker, includes_trim.
    - constructor; [|done]. eapply includes_inlineComment; [|exact Hic].
      destruct (declaration_line_parts k Hk) as (l' & r' & Hs' & Hc & _).
      rewrite Hs in Hs'. injection Hs' as <- <-.
      apply includes_trim, (includes_cleaned NL) in Hfk'.
      rewrite Hc in Hfk'. change (lft ++ EQUALS :: ?v) with (lft ++ [EQUALS] ++ v) in Hfk'.
      rewrite !includes_app in Hfk'.
      by apply orb_false_elim in Hfk' as [_ [_ ?]%orb_false_elim]. }
  assert (paragraphs ≠ []) as Hpne by (unfold paragraphs; by destruct (map _ cs)).
  split.
  - unfold parseEnvFile. rewrite Hsplit, parseLines_app.
    destruct (parseLines ([], []) pre) as [es buf] eqn:Epre.
    assert (buf = []) as ->.
    { change buf with (snd (es, buf)). rewrite <- Epre. apply buffer_after.
      by destruct (last pre). }
    rewrite parseLines_app, parseLines_comments, parseLines_cons by done.
    rewrite parseLine_declaration, parseLines_entries by done. simpl.
    exists (fst (parseLines ([], []) post)).
    rewrite <- app_assoc. do 2 f_equal.
    rewrite (declaration_parts _ _ _ _ Hs), Hic. unfold comments.
    rewrite truthy_Some by done. simpl default. fold paragraphs.
    unfold e. f_equal. by destruct paragraphs.
  - unfold renderEntry, e. simpl comment. simpl key.
    rewrite truthy_Some by (by apply join_snoc_nonempty). simpl negb. cbv iota.
    unfold generateJSDoc. simpl default. rewrite split_join by done.
    by rewrite <- !app_assoc.
Qed.

(** C5: a blank line clears the comment buffer. The lines above a blank line
    and the lines below it are parsed independently, so no comment above the
    blank line reaches an entry (or its rendering) below it; a key line that
    directly follows the blank line gets the entry of an empty buffer. *)
Theorem blank_line_scopes_comments (content : jsstring) pre blank post d :
  split NL content = pre ++ blank :: post →
  isBlankLine blank = true →
  (∀ st, snd (parseLine st blank) = [])
  ∧ parseEnvFile content
    = parseEnvFile (join [NL] pre) ++ parseEnvFile (join [NL] post)
  ∧ map (renderEntry d) (parseEnvFile content)
    = map (renderEntry d) (parseEnvFile (join [NL] pre))
      ++ map (renderEntry d) (parseEnvFile (join [NL] post))
  ∧ (∀ k post', post = k :: post' → isDeclarationLine k = true →
       ∃ later, parseEnvFile content
                = parseEnvFile (join [NL] pre) ++ declaration [] (trim k) :: later).
Proof.
  intros Hsplit Hb.
  pose proof (split_pieces NL content) as Hfree. rewrite Hsplit in Hfree.
  apply Forall_app in Hfree as [Hfpre Hfpost].
  inversion_clear Hfpost as [|? ? _ Hfpost'].
  assert (parseEnvFile content
          = parseEnvFile (join [NL] pre) ++ parseEnvFile (join [NL] post)) as Heq.
  { rewrite !parseEnvFile_lines by done. unfold parseEnvFile.
    rewrite Hsplit, parseLines_app, parseLines_cons.
    destruct (parseLines ([], []) pre) as [es buf].
    by rewrite parseLine_blank, parseLines_entries. }
  split; [|split; [done|split]].
  - intros [es buf]. by rewrite parseLine_blank.
  - by rewrite Heq, map_app.
  - intros k post' -> Hk. rewrite Heq. rewrite (parseEnvFile_lines (k :: _)) by done.
    rewrite parseLines_cons, parseLine_declaration, parseLines_entries by done.
    simpl. by eexists.
Qed.

(** ** Lemmas on the renderer's timestamp line *)

Lemma generateContent_one_line now : includes NL (generateContent now) = false.
Proof.
  unfold generateContent.
  rewrite !includes_app, includes_toString, !includes_pad by done. done.
Qed.

(** The artifact is: two header lines, the timestamp line, and a rest that
    does not depend on the time. *)
Lemma generateDTS_lines d entries sourceFile :
  ∃ rest,
    (∀ now', generateDTS d now' entries sourceFile
             = (bannerLine ++ [NL] ++ lit "// Source: " ++ sourceFile)
               ++ NL :: (lit "// " ++ generateContent now') ++ NL :: rest).
Proof.
  eexists. intros now'. unfold generateDTS.
  rewrite <- !app_assoc. simpl. reflexivity.
Qed.

Lemma stripMetadata_generateDTS d now1 now2 entries sourceFile :
  stripMetadata (generateDTS d now1 entries sourceFile)
  = stripMetadata (generateDTS d now2 entries sourceFile).
Proof.
  destruct (generateDTS_lines d entries sourceFile) as [rest H].
  rewrite !H. unfold stripMetadata. rewrite !split_app_sep.
  rewrite !(split_single NL (lit "// " ++ generateContent _))
    by (rewrite includes_app; apply generateContent_one_line).
  by rewrite !filter_app.
Qed.

(** ** Lemmas on the generator *)

Section GeneratorLemmas.
Variable this : EnvTypesGenerator.

Lemma findEnvFileIn_world files w : snd (findEnvFileIn this files w) = w.
Proof.
  induction files as [|f files IH]; [done|]. simpl. unfold bind, existsSync.
  by destruct (bool_decide _).
Qed.

Lemma findEnvFileIn_none files w :
  (∀ A, A ∈ files → fs w !! path_resolve A = None) →
  findEnvFileIn this files w = (Throw (noEnvFiles this), w).
Proof.
  induction files as [|f files IH]; intros H; [done|].
  simpl. unfold bind, existsSync. rewrite (H f) by apply list_elem_of_here.
  rewrite bool_decide_eq_false_2 by (by intros [? ?]).
  apply IH. intros A HA. by apply H, list_elem_of_further.
Qed.

Lemma findEnvFileIn_first pre B post w :
  (∀ A, A ∈ pre → fs w !! path_resolve A = None) →
  is_Some (fs w !! path_resolve B) →
  findEnvFileIn this (pre ++ B :: post) w = (Return B, w).
Proof.
  intros Hpre HB. induction pre as [|f pre IH]; simpl; unfold bind, existsSync.
  - by rewrite bool_decide_eq_true_2.
  - rewrite (Hpre f) by apply list_elem_of_here.
    rewrite bool_decide_eq_false_2 by (by intros [? ?]).
    apply IH. intros A HA. by apply Hpre, list_elem_of_further.
Qed.

Lemma findEnvFileIn_found files w f w' :
  findEnvFileIn this files w = (Return f, w') →
  w' = w ∧ f ∈ files ∧ is_Some (fs w !! path_resolve f).
Proof.
  induction files as [|x files IH]; [done|]. simpl. unfold bind, existsSync.
  destruct (bool_decide _) eqn:E.
  - intros [= <- <-]. apply bool_decide_eq_true_1 in E.
    repeat split; [apply list_elem_of_here|done].
  - intros H. destruct (IH H) as (? & ? & ?).
    repeat split; [done|by apply list_elem_of_further|done].
Qed.

Lemma readSource_found w f c w' :
  readSource this w = (Return (f, c), w') →
  w' = w ∧ findEnvFile this w = (Return f, w)
  ∧ fs w !! path_resolve f = Some (File c).
Proof.
  unfold readSource, bind.
  destruct (findEnvFile this w) as [[f'|e] w1] eqn:E; [|done].
  apply findEnvFileIn_found in E as E'. destruct E' as (-> & _ & _).
  unfold readFileSync. destruct (fs w !! path_resolve f') as [[c'|]|] eqn:El;
    try done.
  by intros [= <- <- <-].
Qed.


Lemma readSource_world w : snd (readSource this w) = w.
Proof.
  unfold readSource, bind.
  pose proof (findEnvFileIn_world (envFiles this) w) as H.
  fold (findEnvFile this) in H.
  destruct (findEnvFile this w) as [[f|e] w1]; simpl in H; subst; [|done].
  unfold readFileSync. by destruct (fs w !! path_resolve f) as [[c|]|].
Qed.

(** [generate] is: read the source, then [generateFrom]. *)
Lemma generate_readSource now w :
  generate this now w =
  match readSource this w with
  | (Return (f, c), _) => generateFrom this now f c w
  | (Throw e, _) => (Throw e, w)
  end.
Proof.
  unfold generate, readSource, generateFrom, bind.
  pose proof (findEnvFileIn_world (envFiles this) w) as H.
  fold (findEnvFile this) in H.
  destruct (findEnvFile this w) as [[f|e] w1]; simpl in H; subst; [|done].
  unfold readFileSync. by destruct (fs w !! path_resolve f) as [[c|]|].
Qed.

Lemma shouldUpdate_absent newContent w :
  fs w !! path_resolve (outputPath this) = None →
  shouldUpdate this newContent w = (Return true, w).
Proof.
  intros H. unfold shouldUpdate, bind, existsSync. rewrite H.
  by rewrite bool_decide_eq_false_2 by (by intros [? ?]).
Qed.

Lemma shouldUpdate_file newContent currentContent w :
  fs w !! path_resolve (outputPath this) = Some (File currentContent) →
  shouldUpdate this newContent w =
  (Return (bool_decide (stripMetadata currentContent ≠ stripMetadata newContent)), w).
Proof.
  intros H. unfold shouldUpdate, bind, existsSync, readFileSync. rewrite H.
  rewrite bool_decide_eq_true_2 by (by eexists). simpl. by rewrite H.
Qed.

(** Contents that differ only in lines starting with "// Generated:" need no
    update. *)
Lemma shouldUpdate_timestamp_only newContent currentContent w :
  fs w !! path_resolve (outputPath this) = Some (File currentContent) →
  filter (fun line => negb (startsWith (lit "// Generated:") line) = true)
    (split NL currentContent)
  = filter (fun line => negb (startsWith (lit "// Generated:") line) = true)
      (split NL newContent) →
  shouldUpdate this newContent w = (Return false, w).
Proof.
  intros Hf Hlines. rewrite (shouldUpdate_file _ _ _ Hf).
  rewrite bool_decide_eq_false_2; [done|].
  unfold stripMetadata. rewrite Hlines. auto.
Qed.

Lemma shouldUpdate_directory newContent w :
  fs w !! path_resolve (outputPath this) = Some Directory →
  shouldUpdate this newContent w
  = (Throw (SystemError EISDIR (outputPath this)), w).
Proof.
  intros H. unfold shouldUpdate, bind, existsSync, readFileSync. rewrite H.
  rewrite bool_decide_eq_true_2 by (by eexists). simpl. by rewrite H.
Qed.

(** A completed write leaves the artifact at the output path. *)
Lemma write_completed dts msg w w' :
  bind (ensureOutputDirectory this)
    (fun _ => bind (writeFileSync (outputPath this) dts)
       (fun _ => console_log msg)) w = (Return tt, w') →
  fs w' !! path_resolve (outputPath this) = Some (File dts)
  ∧ FsWrite (outputPath this) dts ∈ trace w'.
Proof.
  unfold bind. destruct (ensureOutputDirectory this w) as [[[]|e] w1]; [|done].
  unfold writeFileSync.
  destruct (fs w1 !! path_resolve (outputPath this)) as [[?|]|];
    destruct (fs w1 !! path_dirname (path_resolve (outputPath this))) as [[?|]|];
    try done; intros [= <-]; simpl;
    (split; [by rewrite lookup_insert_eq|];
     rewrite !elem_of_app, !list_elem_of_singleton; auto).
Qed.

(** The outcomes of [generateFrom] that return normally. *)
Lemma generateFrom_returns now f c w w' :
  generateFrom this now f c w = (Return tt, w') →
  let dts := generateDTS (disablePartialType this) now (parseEnvFile c) f in
  (w' = {| fs := fs w; trace := trace w ++ [ConsoleLog [upToDateNotice]] |}
   ∧ ∃ cur, fs w !! path_resolve (outputPath this) = Some (File cur)
            ∧ stripMetadata cur = stripMetadata dts)
  ∨ (fs w' !! path_resolve (outputPath this) = Some (File dts)
     ∧ FsWrite (outputPath this) dts ∈ trace w').
Proof.
  intros H dts. unfold generateFrom in H. fold dts in H. unfold bind at 1 in H.
  destruct (fs w !! path_resolve (outputPath this)) as [[cur|]|] eqn:E.
  - rewrite (shouldUpdate_file _ _ _ E) in H.
    destruct (bool_decide (stripMetadata cur ≠ stripMetadata dts)) eqn:Hd;
      simpl in H.
    + right. eapply write_completed. exact H.
    + left. injection H as <-. split; [done|].
      exists cur. split; [done|].
      apply bool_decide_eq_false_1 in Hd.
      by destruct (decide (stripMetadata cur = stripMetadata dts)).
  - by rewrite (shouldUpdate_directory _ _ E) in H.
  - rewrite (shouldUpdate_absent _ _ E) in H. simpl in H.
    right. eapply write_completed. exact H.
Qed.

End GeneratorLemmas.

(** ** The generator: the properties of the specification *)

Lemma sourceOf_found this w f c :
  sourceOf this w = Return (f, c) →
  readSource this w = (Return (f, c), w).
Proof.
  unfold sourceOf. pose proof (readSource_world this w) as Hw.
  destruct (readSource this w) as [r w0]. simpl in *. by intros ->; subst.
Qed.

(** C1: generation is idempotent. When a run of [generate] has completed and
    the source it read is unchanged, the artifact rendered by a second run at
    any later time equals the first one once the timestamp line is stripped,
    [shouldUpdate] answers false for it, and the second run writes nothing:
    it only prints the up-to-date notice. *)
Theorem generate_idempotent this now1 now2 w w1 :
  generate this now1 w = (Return tt, w1) →
  sourceOf this w1 = sourceOf this w →
  ∃ f c,
    sourceOf this w = Return (f, c)
    ∧ let dts1 := generateDTS (disablePartialType this) now1 (parseEnvFile c) f in
      let dts2 := generateDTS (disablePartialType this) now2 (parseEnvFile c) f in
      stripMetadata dts1 = stripMetadata dts2
      ∧ shouldUpdate this dts2 w1 = (Return false, w1)
      ∧ generate this now2 w1
        = (Return tt,
           {| fs := fs w1;
              trace := trace w1 ++ [ConsoleLog [upToDateNotice]] |}).
Proof.
  intros H1 Hsrc. rewrite generate_readSource in H1.
  destruct (readSource this w) as [[[f c]|e] w0] eqn:Es; [|done].
  assert (sourceOf this w = Return (f, c)) as Hs by (unfold sourceOf; by rewrite Es).
  exists f, c. split; [done|]. intros dts1 dts2.
  pose proof (stripMetadata_generateDTS (disablePartialType this) now1 now2
                (parseEnvFile c) f) as Hstrip.
  fold dts1 dts2 in Hstrip. split; [done|].
  rewrite Hs in Hsrc. apply sourceOf_found in Hsrc.
  assert (shouldUpdate this dts2 w1 = (Return false, w1)) as Hup.
  { apply generateFrom_returns in H1 as [(-> & cur & Hcur & Hc)|[Hout _]].
    - rewrite (shouldUpdate_file _ _ cur) by done. fold dts1 in Hc.
      by rewrite bool_decide_eq_false_2 by (rewrite Hc, Hstrip; auto).
    - rewrite (shouldUpdate_file _ _ dts1) by done.
      by rewrite bool_decide_eq_false_2 by (rewrite Hstrip; auto). }
  split; [done|].
  rewrite generate_readSource, Hsrc. unfold generateFrom, bind.
  fold dts2. by rewrite Hup.
Qed.

(** C4: when none of the candidate paths exists, [generate] throws the
    "No env files found" error and leaves the world as it was: nothing is
    written, created or printed. *)
Theorem generate_no_source this now w :
  (∀ f, f ∈ envFiles this → fs w !! path_resolve f = None) →
  generate this now w
  = (Throw (JsError (lit "No env files found. Searched: "
                     ++ join (lit ", ") (envFiles this))), w).
Proof.
  intros H. rewrite generate_readSource. unfold readSource, bind, findEnvFile.
  by rewrite findEnvFileIn_none.
Qed.


(** C10: when nothing exists at the output path, [shouldUpdate] answers true
    for every candidate content; a run that has read its source then goes on
    to create the directory and write the artifact, never to the up-to-date
    notice, and a run that completes has written the artifact. *)
Theorem fresh_destination_is_written this w :
  fs w !! path_resolve (outputPath this) = None →
  (∀ newContent, shouldUpdate this newContent w = (Return true, w))
  ∧ (∀ now f c, sourceOf this w = Return (f, c) →
       let entries := parseEnvFile c in
       let dts := generateDTS (disablePartialType this) now entries f in
       generate this now w
       = bind (ensureOutputDirectory this)
           (fun _ => bind (writeFileSync (outputPath this) dts)
              (fun _ => console_log (generatedNotice this entries f))) w)
  ∧ (∀ now w', generate this now w = (Return tt, w') →
       ∃ dts, fs w' !! path_resolve (outputPath this) = Some (File dts)
              ∧ FsWrite (outputPath this) dts ∈ trace w').
Proof.
  intros Hout. split; [|split].
  - intros newContent. by apply shouldUpdate_absent.
  - intros now f c Hs entries dts. apply sourceOf_found in Hs.
    rewrite generate_readSource, Hs. unfold generateFrom, bind at 1.
    fold entries dts. by rewrite shouldUpdate_absent.
  - intros now w' H. rewrite generate_readSource in H.
    destruct (readSource this w) as [[[f c]|e] w0]; [|done].
    apply generateFrom_returns in H as [(_ & cur & Hcur & _)|H].
    + by rewrite Hout in Hcur.
    + by eexists.
Qed.

(** The option [useValuesAsTypes] is not read by the constructor, so the
    generator built from the options, and all it renders, is the same
    whatever its value. *)
Lemma useValuesAsTypes_not_read o v :
  newEnvTypesGenerator
    (mkOptions (opt_envFiles o) (opt_outputPath o) (opt_silent o)
       (opt_disablePartialType o) (opt_addExportEnds o) (opt_namespace o)
       (opt_interface o) v)
  = newEnvTypesGenerator o.
Proof. reflexivity. Qed.

(** Every member line ends with the generic type. *)
Lemma renderEntry_string_type d e :
  ∃ doc, renderEntry d e
         = doc ++ lit "    " ++ key e ++ (if d then [] else lit "?")
           ++ lit ": string;".
Proof.
  unfold renderEntry, memberLine. destruct (negb _).
  - by exists [].
  - exists (generateJSDoc (default [] (comment e)) ++ [NL]).
    by rewrite <- !app_assoc.
Qed.

(** ** The plugin: failures of the generation step *)

Lemma generateTypes_run this w :
  generateTypes this w =
  match generationStep this w with
  | (Return _, w1) => (Return tt, w1)
  | (Throw e, w1) =>
      (Return tt,
       {| fs := fs w1;
          trace := trace w1 ++ [ConsoleError [failurePrefix; message e]] |})
  end.
Proof.
  unfold generateTypes, tryCatch.
  by destruct (generationStep this w) as [[[]|e] w1].
Qed.

(** C8, amended: the [try]/[catch] is inside [generateTypes], so a failure of
    the generation step is swallowed wherever the plugin calls it, in the
    [beforeCompile] hook and in the [watchRun] hook alike. [generateTypes]
    always returns normally; when the step has thrown, the error is printed
    after the prefix "[EnvTypesPlugin] Failed to generate env types:"; the
    [beforeCompile] hook then still invokes the completion callback. *)
Theorem generation_failure_swallowed this callback modifiedFiles w :
  ∃ w',
    generateTypes this w = (Return tt, w')
    ∧ (∀ e w1, generationStep this w = (Throw e, w1) →
         w' = {| fs := fs w1;
                 trace := trace w1
                          ++ [ConsoleError [failurePrefix; message e]] |})
    ∧ beforeCompileHook this callback w = callback w'
    ∧ watchRunHook this modifiedFiles w
      = (Return tt,
         if match modifiedFiles with
            | Some changedFiles => hasEnvFileChanged this changedFiles
            | None => false
            end
         then w' else w).
Proof.
  pose proof (generateTypes_run this w) as Hrun.
  destruct (generationStep this w) as [[[]|e] w1] eqn:Hstep.
  - exists w1. repeat split; try done.
    + unfold beforeCompileHook, bind. by rewrite Hrun.
    + unfold watchRunHook. destruct modifiedFiles as [changed|]; [|done].
      by destruct (hasEnvFileChanged this changed).
  - eexists. split; [exact Hrun|]. repeat split.
    + by intros e' w1' [= <- <-].
    + unfold beforeCompileHook, bind. by rewrite Hrun.
    + unfold watchRunHook. destruct modifiedFiles as [changed|]; [|done].
      by destruct (hasEnvFileChanged this changed).
Qed.


(** ** More on the parser *)

Lemma parseLine_skip es buf raw :
  isCommentLine raw = false → includes EQUALS (trim raw) = false →
  parseLine (es, buf) raw = (es, []).
Proof.
  unfold isCommentLine, parseLine. destruct (trim raw) eqn:E; [done|].
  by intros -> ->.
Qed.

Lemma parseLine_not_declaration es buf raw :
  isDeclarationLine raw = false → fst (parseLine (es, buf) raw) = es.
Proof.
  unfold isDeclarationLine, isBlankLine, isCommentLine, parseLine.
  destruct (trim raw) as [|x t] eqn:E; [done|].
  destruct (startsWith [HASH] (x :: t)); [done|].
  by destruct (includes EQUALS (x :: t)).
Qed.

Lemma split_lines_app c (content : jsstring) pre l post :
  split c content = pre ++ l :: post →
  Forall (fun s => includes c s = false) pre
  ∧ includes c l = false
  ∧ Forall (fun s => includes c s = false) post.
Proof.
  intros H. pose proof (split_pieces c content) as Hfree. rewrite H in Hfree.
  apply Forall_app in Hfree as [Hpre Hpost].
  by inversion_clear Hpost.
Qed.

(** X1: A line without [=] that is not a comment (blank or not) ends the scope of
    the comments above it: the lines above and the lines below are parsed
    independently. *)
Theorem line_without_equals_scopes_comments (content : jsstring) pre l post :
  split NL content = pre ++ l :: post →
  isCommentLine l = false →
  includes EQUALS (trim l) = false →
  parseEnvFile content
  = parseEnvFile (join [NL] pre) ++ parseEnvFile (join [NL] post).
Proof.
  intros Hsplit Hc He.
  destruct (split_lines_app _ _ _ _ _ Hsplit) as (Hpre & _ & Hpost).
  rewrite !parseEnvFile_lines by done. unfold parseEnvFile.
  rewrite Hsplit, parseLines_app, parseLines_cons.
  destruct (parseLines ([], []) pre) as [es buf].
  by rewrite parseLine_skip, parseLines_entries.
Qed.

Lemma parseLines_keys lines es buf :
  map key (fst (parseLines (es, buf) lines))
  = map key es
    ++ map (fun l => trim (fst (split1 EQUALS (cleaned (trim l)))))
         (filter (fun l => isDeclarationLine l = true) lines).
Proof.
  revert es buf. induction lines as [|l lines IH]; intros es buf.
  - simpl. by rewrite app_nil_r.
  - rewrite parseLines_cons. destruct (isDeclarationLine l) eqn:Hd.
    + rewrite parseLine_declaration, IH, filter_cons_True by done.
      rewrite map_app, <- app_assoc. simpl. by rewrite key_declaration.
    + pose proof (parseLine_not_declaration es buf l Hd) as Hes.
      destruct (parseLine (es, buf) l) as [es' buf']. simpl in Hes. subst es'.
      rewrite IH, filter_cons_False; [done|]. by rewrite Hd.
Qed.

(** X2: The entries follow the declaration lines: one entry for each of them, in
    file order, with the trimmed text before its first [=] as key; a key
    that occurs twice gives two entries. *)
Theorem entries_follow_declaration_lines (content : jsstring) :
  map key (parseEnvFile content)
  = map (fun l => trim (fst (split1 EQUALS (cleaned (trim l)))))
      (filter (fun l => isDeclarationLine l = true) (split NL content))
  ∧ length (parseEnvFile content)
    = length (filter (fun l => isDeclarationLine l = true) (split NL content)).
Proof.
  assert (map key (parseEnvFile content)
          = map (fun l => trim (fst (split1 EQUALS (cleaned (trim l)))))
              (filter (fun l => isDeclarationLine l = true) (split NL content)))
    as H by apply (parseLines_keys _ [] []).
  split; [done|].
  apply (f_equal length) in H. by rewrite !length_map in H.
Qed.

(** X3: A comment block belongs to one key only: of two key lines in a row, the
    second gets the entry of an empty buffer, whatever stands above them. *)
Theorem comment_attaches_to_one_key (content : jsstring) pre k1 k2 post :
  split NL content = pre ++ k1 :: k2 :: post →
  isDeclarationLine k1 = true →
  isDeclarationLine k2 = true →
  ∃ e1 later,
    parseEnvFile content
    = fst (parseLines ([], []) pre)
      ++ e1 :: declaration [] (trim k2) :: later
    ∧ key e1 = key (declaration [] (trim k1)).
Proof.
  intros Hsplit H1 H2. unfold parseEnvFile.
  rewrite Hsplit, parseLines_app, !parseLines_cons.
  destruct (parseLines ([], []) pre) as [es buf].
  rewrite !parseLine_declaration, parseLines_entries by done. simpl.
  exists (declaration buf (trim k1)), (fst (parseLines ([], []) post)).
  split; [by rewrite <- !app_assoc|]. by rewrite !key_declaration.
Qed.

Lemma indexOf_none c v : includes c v = false → indexOf c v = None.
Proof.
  induction v as [|x v IH]; [done|]. rewrite includes_cons. simpl.
  intros [Hx Hv]%orb_false_elim. rewrite N.eqb_sym, Hx. by rewrite IH.
Qed.

Lemma indexOf_first c a b :
  includes c a = false → indexOf c (a ++ c :: b) = Some (length a).
Proof.
  induction a as [|x a IH].
  - simpl. by rewrite N.eqb_refl.
  - rewrite includes_cons. intros [Hx Ha]%orb_false_elim. simpl.
    rewrite N.eqb_sym, Hx. by rewrite IH.
Qed.

(** X4: The inline comment is what follows the first [#] of the value part,
    trimmed; a later [#] belongs to the comment, and a value part without
    [#] has none. *)
Theorem inlineComment_after_first_hash (a b : jsstring) :
  includes HASH a = false →
  inlineComment a = None
  ∧ inlineComment (a ++ HASH :: b) = Some (trim b).
Proof.
  intros Ha. unfold inlineComment, slice. rewrite indexOf_none by done.
  rewrite indexOf_first by done. split; [done|].
  replace (a ++ HASH :: b) with ((a ++ [HASH]) ++ b)
    by (by rewrite <- app_assoc).
  rewrite drop_app_length'; [done|]. rewrite length_app. simpl. lia.
Qed.

(** Trailing white space, a carriage return included, is invisible to the
    parser. *)

Lemma trimStart_snoc_ws l c :
  isWhiteSpace c = true →
  trimStart (l ++ [c])
  = match trimStart l with
    | [] => []
    | t => t ++ [c]
    end.
Proof.
  intros Hc. induction l as [|x l IH]; simpl; [by rewrite Hc|].
  by destruct (isWhiteSpace x).
Qed.

Lemma trim_snoc_ws l c : isWhiteSpace c = true → trim (l ++ [c]) = trim l.
Proof.
  intros Hc. unfold trim. rewrite trimStart_snoc_ws by done.
  destruct (trimStart l) as [|y t]; [done|].
  unfold trimEnd. rewrite rev_app_distr. simpl. by rewrite Hc.
Qed.

Lemma parseLine_trim st a b : trim a = trim b → parseLine st a = parseLine st b.
Proof. intros H. unfold parseLine. by rewrite H. Qed.

Lemma parseLines_trim st ls ls' :
  Forall2 (fun a b => trim a = trim b) ls ls' →
  parseLines st ls = parseLines st ls'.
Proof.
  intros H. revert st. induction H as [|a b ls ls' Hab _ IH]; intros st; [done|].
  by rewrite !parseLines_cons, (parseLine_trim st a b Hab), IH.
Qed.

Lemma split_join_crlf lines :
  lines ≠ [] → Forall (fun l => includes NL l = false) lines →
  Forall2 (fun a b => trim a = trim b)
    (split NL (join [CR; NL] lines)) lines.
Proof.
  induction lines as [|x lines IH]; [done|]. intros _ Hall.
  inversion_clear Hall as [|? ? Hx Hl].
  destruct lines as [|y lines].
  - simpl. rewrite split_single by done. by repeat constructor.
  - rewrite join_cons.
    change (x ++ [CR; NL] ++ ?r) with (x ++ [CR] ++ NL :: r).
    rewrite app_assoc, split_app_sep, split_single.
    + constructor; [by apply trim_snoc_ws|]. by apply IH.
    + by rewrite includes_app, Hx.
Qed.

(** X5: Windows line endings: a source whose lines are separated by CR LF has the
    entries of the same lines separated by LF. *)
Theorem crlf_line_endings (lines : list jsstring) :
  Forall (fun l => includes NL l = false) lines →
  parseEnvFile (join [CR; NL] lines) = parseEnvFile (join [NL] lines).
Proof.
  intros Hall. destruct lines as [|x lines]; [done|].
  unfold parseEnvFile at 1.
  rewrite (parseLines_trim _ _ (x :: lines)) by (by apply split_join_crlf).
  by rewrite parseEnvFile_lines.
Qed.

(** X6: A key whose comment block is one bare [#] line, wherever it stands in
    the file, and which has no inline comment gets the empty string, not
    null, as comment, and the renderer emits no doc block for it. *)
Theorem bare_comment_line_gives_no_doc_block
  (content : jsstring) pre c k post lft rest d :
  split NL content = pre ++ c :: k :: post →
  match last pre with
  | Some l => isCommentLine l = false
  | None => True
  end →
  isCommentLine c = true →
  stripCommentMarker (trim c) = [] →
  isDeclarationLine k = true →
  split1 EQUALS (cleaned (trim k)) = (lft, rest) →
  truthy (inlineComment (valuePart rest)) = false →
  let e := {| key := trim lft; comment := Some [] |} in
  (∃ later,
     parseEnvFile content = fst (parseLines ([], []) pre) ++ e :: later)
  ∧ (∀ es, parseLines (es, []) [c; k] = (es ++ [e], []))
  ∧ renderEntry d e = memberLine d (trim lft)
  ∧ (pre = [] → post = [] →
     generateInterfaceBody d (parseEnvFile content) = memberLine d (trim lft)).
Proof.
  intros Hsplit Hpre Hc Hs Hk Hl Hi e.
  assert (∀ es, parseLines (es, []) [c; k] = (es ++ [e], [])) as Hck.
  { intros es. rewrite !parseLines_cons.
    rewrite parseLine_comment, parseLine_declaration by done. simpl.
    rewrite Hs, (declaration_parts _ _ _ _ Hl). unfold comments.
    by rewrite Hi. }
  assert (∃ later,
            parseEnvFile content = fst (parseLines ([], []) pre) ++ e :: later)
    as Hp.
  { unfold parseEnvFile. rewrite Hsplit, parseLines_app.
    destruct (parseLines ([], []) pre) as [es buf] eqn:Epre.
    assert (buf = []) as ->.
    { change buf with (snd (es, buf)). rewrite <- Epre. apply buffer_after.
      by destruct (last pre). }
    change (c :: k :: post) with ([c; k] ++ post).
    rewrite parseLines_app, Hck, parseLines_entries. simpl.
    rewrite <- app_assoc. by eexists. }
  split; [done|]. split; [done|]. split; [done|].
  intros -> ->. unfold parseEnvFile. rewrite Hsplit. simpl app.
  by rewrite Hck.
Qed.

Lemma startsWith_prefix p (r : jsstring) : startsWith p (p ++ r) = true.
Proof. induction p as [|a p IH]; [done|]. simpl. by rewrite N.eqb_refl. Qed.

Lemma cleaned_export (t : jsstring) : cleaned (lit "export " ++ t) = t.
Proof. unfold cleaned. by rewrite startsWith_prefix. Qed.

Lemma trim_export (raw : jsstring) :
  trim raw ≠ [] → trim (lit "export " ++ trim raw) = lit "export " ++ trim raw.
Proof.
  intros Hne. unfold trim at 1.
  change (lit "export " ++ trim raw) with (101 :: (lit "xport " ++ trim raw)).
  rewrite trimStart_fixed by done.
  destruct (last (trim raw)) as [c|] eqn:Hl; [|by apply last_None in Hl].
  apply (trimEnd_fixed _ c); [|by apply (trim_last raw)].
  change (101 :: (lit "xport " ++ trim raw)) with (lit "export " ++ trim raw).
  rewrite last_app, Hl. done.
Qed.

(** X7: An [export ] prefix is dropped: a declaration line with the prefix gives
    the entry, and the state, of the line without it. *)
Theorem export_prefix_is_dropped st (raw : jsstring) :
  isDeclarationLine raw = true →
  startsWith (lit "export ") (trim raw) = false →
  parseLine st (lit "export " ++ trim raw) = parseLine st raw.
Proof.
  intros Hd He. destruct st as [es buf].
  rewrite (parseLine_declaration es buf raw Hd).
  unfold isDeclarationLine, isBlankLine in Hd.
  apply andb_prop in Hd as [[Hb _]%andb_prop Heq].
  assert (trim raw ≠ []) as Hne by (by destruct (trim raw)).
  unfold parseLine. rewrite (trim_export raw Hne).
  change (lit "export " ++ trim raw) with (101 :: (lit "xport " ++ trim raw)) at 1.
  cbv iota.
  change (startsWith [HASH] (lit "export " ++ trim raw)) with false.
  rewrite includes_app, Heq, orb_true_r. simpl negb. cbv iota.
  unfold declaration. rewrite cleaned_export.
  unfold cleaned. by rewrite He.
Qed.

(** ** More on the renderer *)

Lemma split_join_concat c (l : list jsstring) :
  l ≠ [] → split c (join [c] l) = concat (map (split c) l).
Proof.
  induction l as [|x l IH]; [done|]. intros _.
  destruct l as [|y l]; [simpl; by rewrite app_nil_r|].
  rewrite join_cons. change (x ++ [c] ++ ?r) with (x ++ c :: r).
  rewrite split_app_sep, IH by done. done.
Qed.

Lemma split_prefixed_lines (comment : jsstring) :
  split NL (join [NL] (map (fun line => lit "     * " ++ line) (split NL comment)))
  = map (fun line => lit "     * " ++ line) (split NL comment).
Proof.
  apply split_join.
  - pose proof (split_nonempty NL comment). by destruct (split NL comment).
  - apply Forall_map. eapply Forall_impl; [apply split_pieces|].
    intros p Hp. cbv beta. by rewrite includes_app, Hp.
Qed.

Lemma generateJSDoc_split (comment : jsstring) :
  split NL (generateJSDoc comment)
  = lit "    /**"
    :: map (fun line => lit "     * " ++ line) (split NL comment)
    ++ [lit "     */"].
Proof.
  unfold generateJSDoc.
  change (lit "    /**" ++ [NL] ++ ?x ++ [NL] ++ ?y)
    with (lit "    /**" ++ NL :: (x ++ NL :: y)).
  rewrite split_app_sep, split_app_sep, split_prefixed_lines.
  rewrite (split_single NL (lit "    /**")) by reflexivity.
  by rewrite (split_single NL (lit "     */")) by reflexivity.
Qed.

(** X8: The doc block has an opening line, one prefixed line for each line of the
    comment, in order, and a closing line. *)
Theorem generateJSDoc_lines (comment : jsstring) :
  split NL (generateJSDoc comment)
  = lit "    /**"
    :: map (fun line => lit "     * " ++ line) (split NL comment)
    ++ [lit "     */"].
Proof. apply generateJSDoc_split. Qed.

Lemma memberLine_one_line d (k : jsstring) :
  includes NL k = false → includes NL (memberLine d k) = false.
Proof.
  intros Hk. unfold memberLine. rewrite !includes_app, Hk. by destruct d.
Qed.

Lemma renderEntry_lines d e :
  includes NL (key e) = false →
  split NL (renderEntry d e)
  = (if truthy (comment e)
     then lit "    /**"
          :: map (fun line => lit "     * " ++ line)
               (split NL (default [] (comment e)))
          ++ [lit "     */"]
     else [])
    ++ [memberLine d (key e)].
Proof.
  intros Hk. unfold renderEntry. destruct (truthy (comment e)).
  - change (negb true) with false. cbv beta iota zeta.
    change (?j ++ [NL] ++ ?m) with (j ++ NL :: m).
    rewrite split_app_sep, generateJSDoc_split.
    by rewrite (split_single NL (memberLine d (key e)))
      by (by apply memberLine_one_line).
  - change (negb false) with true. cbv beta iota.
    by apply split_single, memberLine_one_line.
Qed.

Lemma generateInterfaceBody_split d (entries : list EnvEntry) :
  entries ≠ [] →
  Forall (fun e => includes NL (key e) = false) entries →
  split NL (generateInterfaceBody d entries)
  = concat
      (map (fun e =>
              (if truthy (comment e)
               then lit "    /**"
                    :: map (fun line => lit "     * " ++ line)
                         (split NL (default [] (comment e)))
                    ++ [lit "     */"]
               else [])
              ++ [memberLine d (key e)])
         entries).
Proof.
  intros Hne Hall. unfold generateInterfaceBody.
  rewrite split_join_concat by (intros Hm; by apply map_eq_nil in Hm).
  rewrite map_map. f_equal.
  apply map_ext_in. intros e He. apply renderEntry_lines.
  rewrite Forall_forall in Hall. by apply Hall, list_elem_of_In.
Qed.

(** X9: The interface body is, entry by entry in order, the lines of the doc
    block, if the entry has a comment, followed by one member line. *)
Theorem generateInterfaceBody_lines d (entries : list EnvEntry) :
  entries ≠ [] →
  Forall (fun e => includes NL (key e) = false) entries →
  split NL (generateInterfaceBody d entries)
  = concat
      (map (fun e =>
              (if truthy (comment e)
               then lit "    /**"
                    :: map (fun line => lit "     * " ++ line)
                         (split NL (default [] (comment e)))
                    ++ [lit "     */"]
               else [])
              ++ [memberLine d (key e)])
         entries).
Proof. apply generateInterfaceBody_split. Qed.

(** ** Change detection sees every change of the interface body *)

(** The lines of the artifact. *)
Lemma generateDTS_split d now entries sourceFile :
  split NL (generateDTS d now entries sourceFile)
  = (bannerLine :: split NL (lit "// Source: " ++ sourceFile))
    ++ [lit "// " ++ generateContent now]
    ++ [[]; lit "declare namespace NodeJS {"; lit "  interface ProcessEnv {"]
    ++ split NL (generateInterfaceBody d entries)
    ++ [lit "  }"; lit "}"; []; lit "export {};"; []].
Proof.
  assert (generateDTS d now entries sourceFile
          = (bannerLine ++ NL :: (lit "// Source: " ++ sourceFile))
            ++ NL :: (lit "// " ++ generateContent now)
            ++ NL :: []
            ++ NL :: lit "declare namespace NodeJS {"
            ++ NL :: lit "  interface ProcessEnv {"
            ++ NL :: generateInterfaceBody d entries
            ++ NL :: lit "  }"
            ++ NL :: lit "}"
            ++ NL :: []
            ++ NL :: lit "export {};"
            ++ NL :: []) as ->.
  { unfold generateDTS. rewrite <- !app_assoc. reflexivity. }
  rewrite !split_app_sep.
  rewrite (split_single NL bannerLine) by reflexivity.
  rewrite (split_single NL (lit "// " ++ generateContent now))
    by (rewrite includes_app; apply generateContent_one_line).
  rewrite <- !app_assoc. reflexivity.
Qed.

Lemma keepLine_space r : keepLine (32 :: r).
Proof. reflexivity. Qed.

Lemma body_lines_kept d entries :
  Forall (fun e => includes NL (key e) = false) entries →
  Forall keepLine (split NL (generateInterfaceBody d entries)).
Proof.
  intros Hall. destruct entries as [|e0 entries]; [by repeat constructor|].
  rewrite generateInterfaceBody_split by done.
  apply Forall_concat, Forall_map. eapply Forall_impl; [exact Hall|].
  intros e _. cbv beta. apply Forall_app. split.
  - destruct (truthy (comment e)); [|done].
    constructor; [apply keepLine_space|]. apply Forall_app. split.
    + apply Forall_map, Forall_true. intros p. apply keepLine_space.
    + constructor; [apply keepLine_space|done].
  - constructor; [apply keepLine_space|done].
Qed.

Lemma filter_keepLine_all (l : list jsstring) :
  Forall keepLine l → filter keepLine l = l.
Proof.
  induction 1 as [|x l Hx _ IH]; [done|].
  by rewrite filter_cons_True, IH.
Qed.

Lemma Forall_filter_keepLine (Q : jsstring → Prop) (l : list jsstring) :
  Forall Q l → Forall Q (filter keepLine l).
Proof.
  rewrite !Forall_forall. intros H x [_ Hx]%list_elem_of_filter. by apply H.
Qed.

Lemma stripMetadata_lines (sourceFile : jsstring) :
  ∃ hd,
    (∀ d' now' entries',
       Forall (fun e => includes NL (key e) = false) entries' →
       stripMetadata (generateDTS d' now' entries' sourceFile)
       = join [NL]
           (hd
            ++ [[]; lit "declare namespace NodeJS {";
                lit "  interface ProcessEnv {"]
            ++ split NL (generateInterfaceBody d' entries')
            ++ [lit "  }"; lit "}"; []; lit "export {};"; []]))
    ∧ Forall (fun l => includes NL l = false) hd.
Proof.
  exists (filter keepLine (bannerLine :: split NL (lit "// Source: " ++ sourceFile))).
  split.
  - intros d' now' entries' Hall. unfold stripMetadata.
    rewrite generateDTS_split. fold keepLine. rewrite !filter_app.
    rewrite (filter_keepLine_all _ (body_lines_kept d' entries' Hall)).
    rewrite (filter_cons_False keepLine (lit "// " ++ generateContent now'))
      by (by intros ?).
    reflexivity.
  - apply Forall_filter_keepLine.
    constructor; [reflexivity|apply split_pieces].
Qed.

Lemma join_lines_inj (l1 l2 : list jsstring) :
  l1 ≠ [] → l2 ≠ [] →
  Forall (fun l => includes NL l = false) l1 →
  Forall (fun l => includes NL l = false) l2 →
  join [NL] l1 = join [NL] l2 → l1 = l2.
Proof.
  intros H1 H2 F1 F2 E. apply (f_equal (split NL)) in E.
  by rewrite !split_join in E.
Qed.

Lemma stripMetadata_body_inj d now1 now2 entries1 entries2 sourceFile :
  Forall (fun e => includes NL (key e) = false) entries1 →
  Forall (fun e => includes NL (key e) = false) entries2 →
  stripMetadata (generateDTS d now1 entries1 sourceFile)
  = stripMetadata (generateDTS d now2 entries2 sourceFile) →
  generateInterfaceBody d entries1 = generateInterfaceBody d entries2.
Proof.
  intros F1 F2. destruct (stripMetadata_lines sourceFile) as (hd & Hs & Hhd).
  rewrite !Hs by done. intros E.
  apply join_lines_inj in E.
  - apply app_inv_head in E. injection E as E. apply app_inv_tail in E.
    rewrite <- (join_split NL (generateInterfaceBody d entries1)).
    rewrite <- (join_split NL (generateInterfaceBody d entries2)).
    by rewrite E.
  - by destruct hd.
  - by destruct hd.
  - apply Forall_app. split; [done|].
    repeat (constructor; [reflexivity|]).
    apply Forall_app. split; [apply split_pieces|by repeat constructor].
  - apply Forall_app. split; [done|].
    repeat (constructor; [reflexivity|]).
    apply Forall_app. split; [apply split_pieces|by repeat constructor].
Qed.

Lemma includes_split1_fst c' c (s : jsstring) :
  includes c' s = false → includes c' (fst (split1 c s)) = false.
Proof.
  induction s as [|x s IH]; [done|]. rewrite includes_cons.
  intros [Hx Hs]%orb_false_elim. simpl.
  destruct (split1 c s) as [h t]. destruct (x =? c); [done|].
  simpl in *. by rewrite Hx, IH.
Qed.

Lemma parseLines_keys_one_line lines es buf :
  Forall (fun l => includes NL l = false) lines →
  Forall (fun e => includes NL (key e) = false) es →
  Forall (fun e => includes NL (key e) = false)
    (fst (parseLines (es, buf) lines)).
Proof.
  intros Hl. revert es buf.
  induction Hl as [|l lines Hfree _ IH]; intros es buf Hes; [done|].
  rewrite parseLines_cons. destruct (isDeclarationLine l) eqn:Hd.
  - rewrite parseLine_declaration by done. apply IH.
    apply Forall_app. split; [done|]. constructor; [|done].
    rewrite key_declaration.
    by apply includes_trim, includes_split1_fst, includes_cleaned, includes_trim.
  - pose proof (parseLine_not_declaration es buf l Hd) as H.
    destruct (parseLine (es, buf) l) as [es' buf']. simpl in H. subst es'.
    by apply IH.
Qed.

Lemma parseEnvFile_keys_one_line (content : jsstring) :
  Forall (fun e => includes NL (key e) = false) (parseEnvFile content).
Proof.
  apply parseLines_keys_one_line; [apply split_pieces|done].
Qed.

(** X10: Change detection is complete for the interface body: when the file at the
    output path is an artifact of this generator and the candidate is rendered
    from a source with a different interface body (same source name), then
    [shouldUpdate] answers true, whatever the two timestamps. *)
Theorem shouldUpdate_detects_changed_body this d now1 now2
  (content1 content2 sourceFile : jsstring) w :
  fs w !! path_resolve (outputPath this)
  = Some (File (generateDTS d now1 (parseEnvFile content1) sourceFile)) →
  generateInterfaceBody d (parseEnvFile content1)
  ≠ generateInterfaceBody d (parseEnvFile content2) →
  shouldUpdate this (generateDTS d now2 (parseEnvFile content2) sourceFile) w
  = (Return true, w).
Proof.
  intros Hf Hne. rewrite (shouldUpdate_file _ _ _ _ Hf).
  rewrite bool_decide_eq_true_2; [done|]. intros E. apply Hne.
  eapply stripMetadata_body_inj; [| |exact E]; apply parseEnvFile_keys_one_line.
Qed.

(** ** The timestamp *)

Lemma pad_table :
  forallb
    (fun k =>
       match pad (N.of_nat k) with
       | [a; b] =>
           isDigit a && isDigit b && (N.of_nat k =? 10 * (a - 48) + (b - 48))
       | _ => false
       end)
    (seq 0 100) = true.
Proof. vm_compute. reflexivity. Qed.

Lemma pad_digits (n : N) :
  n < 100 →
  ∃ a b, pad n = [a; b] ∧ isDigit a = true ∧ isDigit b = true
         ∧ n = 10 * (a - 48) + (b - 48).
Proof.
  intros Hn. pose proof pad_table as H. rewrite forallb_forall in H.
  specialize (H (N.to_nat n)). rewrite N2Nat.id in H.
  destruct (pad n) as [|a [|b [|c r]]];
    try (discriminate H; apply in_seq; lia).
  exists a, b. assert (In (N.to_nat n) (seq 0 100)) as Hin by (apply in_seq; lia).
  apply H in Hin. apply andb_prop in Hin as [[Ha Hb]%andb_prop Hv].
  apply N.eqb_eq in Hv. done.
Qed.

(** X12: [pad] renders a number below 100 as exactly two decimal digits, with a
    leading zero when needed, whose value is the number. *)
Theorem pad_two_digits (n : N) :
  n < 100 →
  ∃ a b, pad n = [a; b] ∧ isDigit a = true ∧ isDigit b = true
         ∧ n = 10 * (a - 48) + (b - 48).
Proof. apply pad_digits. Qed.

Lemma year_table :
  forallb
    (fun k =>
       match toString (N.of_nat k) with
       | [a; b; c; d] => isDigit a && isDigit b && isDigit c && isDigit d
       | _ => false
       end)
    (seq (N.to_nat 1000) (N.to_nat 9000)) = true.
Proof. vm_compute. reflexivity. Qed.

Lemma year_four_digits (n : N) :
  1000 ≤ n → n < 10000 →
  ∃ a b c d, toString n = [a; b; c; d]
             ∧ isDigit a = true ∧ isDigit b = true
             ∧ isDigit c = true ∧ isDigit d = true.
Proof.
  intros Hl Hu. pose proof year_table as H. rewrite forallb_forall in H.
  assert (In (N.to_nat n) (seq (N.to_nat 1000) (N.to_nat 9000))) as Hin
    by (apply in_seq; lia).
  apply H in Hin. rewrite N2Nat.id in Hin.
  destruct (toString n) as [|a [|b [|c [|d [|x r]]]]]; try done.
  exists a, b, c, d.
  apply andb_prop in Hin as [[[Ha Hb]%andb_prop Hc]%andb_prop Hd]. done.
Qed.

(** X13: For a date of the common era with a four-digit year the timestamp has the
    shape [Generated: YYYY-MM-DDTHH:MM:SS]. *)
Theorem generateContent_shape (now : Date) :
  1000 ≤ getFullYear now → getFullYear now < 10000 →
  getMonth now < 12 → getDate now < 32 → getHours now < 24 →
  getMinutes now < 60 → getSeconds now < 60 →
  matchesPattern timestampPattern (generateContent now) = true.
Proof.
  intros Hy1 Hy2 Hmo Hd Hh Hmi Hs.
  destruct (year_four_digits _ Hy1 Hy2) as (y1 & y2 & y3 & y4 & Ey & ? & ? & ? & ?).
  destruct (pad_digits (getMonth now + 1)) as (m1 & m2 & Em & ? & ? & _); [lia|].
  destruct (pad_digits (getDate now)) as (d1 & d2 & Ed & ? & ? & _); [lia|].
  destruct (pad_digits (getHours now)) as (h1 & h2 & Eh & ? & ? & _); [lia|].
  destruct (pad_digits (getMinutes now)) as (i1 & i2 & Ei & ? & ? & _); [lia|].
  destruct (pad_digits (getSeconds now)) as (s1 & s2 & Es & ? & ? & _); [lia|].
  unfold generateContent. rewrite Ey, Em, Ed, Eh, Ei, Es.
  cbn -[isDigit].
  repeat match goal with H : isDigit _ = true |- _ => rewrite H; clear H end.
  reflexivity.
Qed.

(** ** More on the generator *)

Lemma findEnvFileIn_outcome this files w :
  snd (findEnvFileIn this files w) = w
  ∧ match fst (findEnvFileIn this files w) with
    | Return f =>
        ∃ pre post,
          files = pre ++ f :: post
          ∧ (∀ A, A ∈ pre → fs w !! path_resolve A = None)
          ∧ is_Some (fs w !! path_resolve f)
    | Throw e =>
        e = noEnvFiles this
        ∧ ∀ A, A ∈ files → fs w !! path_resolve A = None
    end.
Proof.
  split; [apply findEnvFileIn_world|].
  induction files as [|x files IH].
  - simpl. split; [done|]. by intros A ?%elem_of_nil.
  - simpl. unfold bind, existsSync.
    destruct (fs w !! path_resolve x) as [nd|] eqn:Ex.
    + rewrite bool_decide_eq_true_2 by (by eexists). simpl.
      exists [], files. repeat split; [|by eexists].
      by intros A ?%elem_of_nil.
    + rewrite bool_decide_eq_false_2 by (by intros [? ?]).
      destruct (fst (findEnvFileIn this files w)) as [f|e].
      * destruct IH as (pre & post & -> & Hpre & Hf).
        exists (x :: pre), post. repeat split; [|done].
        intros A [->|HA]%elem_of_cons; [done|by apply Hpre].
      * destruct IH as [-> Hall]. split; [done|].
        intros A [->|HA]%elem_of_cons; [done|by apply Hall].
Qed.

(** X14: [findEnvFile] only reads. What it returns is the first candidate, in list
    order, that exists (as a file or as a directory); it throws exactly when no
    candidate exists, an empty candidate list included. *)
Theorem findEnvFile_outcome this w :
  snd (findEnvFile this w) = w
  ∧ match fst (findEnvFile this w) with
    | Return f =>
        ∃ pre post,
          envFiles this = pre ++ f :: post
          ∧ (∀ A, A ∈ pre → fs w !! path_resolve A = None)
          ∧ is_Some (fs w !! path_resolve f)
    | Throw e =>
        e = JsError (lit "No env files found. Searched: "
                     ++ join (lit ", ") (envFiles this))
        ∧ ∀ A, A ∈ envFiles this → fs w !! path_resolve A = None
    end.
Proof. apply findEnvFileIn_outcome. Qed.

(** X15: There is no fall-through: when the first candidate that exists is a
    directory, [generate] fails on reading it and writes nothing, even if a
    later candidate is a readable file. *)
Theorem directory_candidate_stops_generation this now w pre B post :
  envFiles this = pre ++ B :: post →
  (∀ A, A ∈ pre → fs w !! path_resolve A = None) →
  fs w !! path_resolve B = Some Directory →
  generate this now w = (Throw (SystemError EISDIR B), w).
Proof.
  intros Hfiles Hpre HB. rewrite generate_readSource.
  unfold readSource, bind, findEnvFile. rewrite Hfiles.
  rewrite findEnvFileIn_first by (done || by eexists).
  unfold readFileSync. by rewrite HB.
Qed.

(** X16: When the output path is a directory, [generate] fails in [shouldUpdate],
    before anything is created or written. *)
Theorem output_directory_stops_generation this now w f c :
  sourceOf this w = Return (f, c) →
  fs w !! path_resolve (outputPath this) = Some Directory →
  generate this now w = (Throw (SystemError EISDIR (outputPath this)), w).
Proof.
  intros Hs Hout. apply sourceOf_found in Hs.
  rewrite generate_readSource, Hs. unfold generateFrom, bind.
  by rewrite shouldUpdate_directory.
Qed.

Lemma mkAncestors_frame (fuel : nat) (d : jsstring)
  (m m' : gmap (list N) node) :
  mkAncestors fuel d m = Some m' →
  ∀ k, is_Some (m !! k) → m' !! k = m !! k.
Proof.
  revert d m'. induction fuel as [|n IH]; intros d m' H k Hk; simpl in H.
  - destruct (m !! d) as [[?|]|] eqn:Ed; simplify_eq; [done|].
    rewrite lookup_insert_ne; [done|]. intros ->. rewrite Ed in Hk.
    by destruct Hk.
  - destruct (m !! d) as [[?|]|] eqn:Ed; simplify_eq; [done|].
    destruct (mkAncestors n (path_dirname d) m) as [m1|] eqn:E1; simplify_eq.
    rewrite lookup_insert_ne; [by eapply IH|]. intros ->. rewrite Ed in Hk.
    by destruct Hk.
Qed.

Lemma mkdirSync_recursive_frame p w r w' :
  mkdirSync_recursive p w = (r, w') →
  ∀ k, is_Some (fs w !! k) → fs w' !! k = fs w !! k.
Proof.
  unfold mkdirSync_recursive. cbv zeta. intros H k Hk.
  destruct (fs w !! path_resolve p) as [[?|]|] eqn:Ed; simplify_eq; [done..|].
  destruct (mkAncestors _ _ (fs w)) as [m1|] eqn:E1; simplify_eq; [|done].
  simpl. rewrite lookup_insert_ne; [by eapply mkAncestors_frame|].
  intros <-. rewrite Ed in Hk. by destruct Hk.
Qed.

Lemma mkdirSync_recursive_creates p w w' :
  mkdirSync_recursive p w = (Return tt, w') →
  fs w' !! path_resolve p = Some Directory.
Proof.
  unfold mkdirSync_recursive. cbv zeta. intros H.
  destruct (fs w !! path_resolve p) as [[?|]|] eqn:Ed; simplify_eq; [done|].
  destruct (mkAncestors _ _ (fs w)) as [m1|] eqn:E1; simplify_eq.
  simpl. by rewrite lookup_insert_eq.
Qed.

Lemma mkdirSync_recursive_throws p w e w' :
  mkdirSync_recursive p w = (Throw e, w') → w' = w.
Proof.
  unfold mkdirSync_recursive. cbv zeta. intros H.
  destruct (fs w !! path_resolve p) as [[?|]|]; simplify_eq; [done|].
  by destruct (mkAncestors _ _ (fs w)); simplify_eq.
Qed.

(** X17: [ensureOutputDirectory] leaves a world in which the directory of the
    output path exists; it does nothing when it exists already, and when the
    directory cannot be created nothing has changed. *)
Theorem ensureOutputDirectory_outcome this w :
  let dir := path_resolve (path_dirname (outputPath this)) in
  match ensureOutputDirectory this w with
  | (Return _, w') =>
      is_Some (fs w' !! dir) ∧ (is_Some (fs w !! dir) → w' = w)
  | (Throw e, w') => w' = w ∧ fs w !! dir = None
  end.
Proof.
  intros dir. unfold ensureOutputDirectory, bind, existsSync. fold dir.
  destruct (fs w !! dir) as [nd|] eqn:Ed.
  - rewrite bool_decide_eq_true_2 by (by eexists). simpl. by rewrite Ed.
  - rewrite bool_decide_eq_false_2 by (by intros [? ?]). simpl.
    destruct (mkdirSync_recursive _ w) as [[[]|e] w1] eqn:Em.
    + apply mkdirSync_recursive_creates in Em. fold dir in Em. simpl.
      rewrite Em. split; [by eexists|]. by intros [? ?].
    + by apply mkdirSync_recursive_throws in Em.
Qed.

Lemma ensureOutputDirectory_frame this w r w' :
  ensureOutputDirectory this w = (r, w') →
  ∀ k, is_Some (fs w !! k) → fs w' !! k = fs w !! k.
Proof.
  unfold ensureOutputDirectory, bind, existsSync.
  destruct (bool_decide _); simpl; [by intros [= <- <-]|].
  destruct (mkdirSync_recursive _ w) as [[[]|e] w1] eqn:Em.
  - intros [= <- <-] k Hk. simpl. by eapply mkdirSync_recursive_frame.
  - intros [= <- <-] k Hk. by eapply mkdirSync_recursive_frame.
Qed.

Lemma writeFileSync_frame p data w r w' :
  writeFileSync p data w = (r, w') →
  ∀ k, k ≠ path_resolve p → fs w' !! k = fs w !! k.
Proof.
  unfold writeFileSync. cbv zeta. intros H k Hk.
  destruct (fs w !! path_resolve p) as [[?|]|];
    destruct (fs w !! path_dirname (path_resolve p)) as [[?|]|];
    simplify_eq; try done; simpl; by rewrite lookup_insert_ne.
Qed.

Lemma shouldUpdate_world this c w : snd (shouldUpdate this c w) = w.
Proof.
  destruct (fs w !! path_resolve (outputPath this)) as [[cur|]|] eqn:E.
  - by rewrite (shouldUpdate_file _ _ _ _ E).
  - by rewrite (shouldUpdate_directory _ _ _ E).
  - by rewrite (shouldUpdate_absent _ _ _ E).
Qed.

Lemma generateFrom_frame this now f c w k :
  k ≠ path_resolve (outputPath this) → is_Some (fs w !! k) →
  fs (snd (generateFrom this now f c w)) !! k = fs w !! k.
Proof.
  intros Hk Hs. unfold generateFrom. unfold bind at 1.
  pose proof (shouldUpdate_world this
    (generateDTS (disablePartialType this) now (parseEnvFile c) f) w) as Hw.
  destruct (shouldUpdate this _ w) as [[[|]|e] w0]; simpl in Hw; subst w0;
    try done.
  simpl. unfold bind.
  destruct (ensureOutputDirectory this w) as [[[]|e] w1] eqn:E1.
  - pose proof (ensureOutputDirectory_frame _ _ _ _ E1 k Hs) as H1.
    destruct (writeFileSync _ _ w1) as [[[]|e] w2] eqn:E2; simpl;
      pose proof (writeFileSync_frame _ _ _ _ _ E2 k Hk) as H2; congruence.
  - simpl. by eapply ensureOutputDirectory_frame.
Qed.

(** X18: [generate] changes no existing file or directory other than the one at
    the output path: whatever it returns or throws, every other path that
    existed before holds afterwards what it held before. *)
Theorem generate_preserves_other_files this now w k :
  k ≠ path_resolve (outputPath this) →
  is_Some (fs w !! k) →
  fs (snd (generate this now w)) !! k = fs w !! k.
Proof.
  intros Hk Hs. rewrite generate_readSource.
  destruct (readSource this w) as [[[f c]|e] w0]; [|done].
  by apply generateFrom_frame.
Qed.

(** X11: A changed source is picked up: when the file at the output path is the
    artifact of an earlier content of the same source file and the interface
    body rendered from the present content differs, a run that completes has
    replaced it by the artifact of the present content. *)
Theorem generate_rewrites_after_change this now0 now w f c0 c w' :
  sourceOf this w = Return (f, c) →
  fs w !! path_resolve (outputPath this)
  = Some (File (generateDTS (disablePartialType this) now0 (parseEnvFile c0) f)) →
  generateInterfaceBody (disablePartialType this) (parseEnvFile c0)
  ≠ generateInterfaceBody (disablePartialType this) (parseEnvFile c) →
  generate this now w = (Return tt, w') →
  fs w' !! path_resolve (outputPath this)
  = Some (File (generateDTS (disablePartialType this) now (parseEnvFile c) f))
  ∧ FsWrite (outputPath this)
      (generateDTS (disablePartialType this) now (parseEnvFile c) f) ∈ trace w'.
Proof.
  intros Hs Hout Hne Hgen. apply sourceOf_found in Hs.
  rewrite generate_readSource, Hs in Hgen.
  apply generateFrom_returns in Hgen as [(_ & cur & Hcur & Hstrip)|H]; [|done].
  rewrite Hout in Hcur. injection Hcur as <-. exfalso. apply Hne.
  eapply stripMetadata_body_inj; [| |exact Hstrip];
    apply parseEnvFile_keys_one_line.
Qed.

(** ** CLI mode *)

Lemma cliMain_joined (files : list jsstring) (out : jsstring) now w :
  join [COMMA] files ≠ [] →
  Forall (fun f => includes COMMA f = false) files →
  out ≠ [] →
  cliMain (Some (join [COMMA] files)) (Some out) now w
  = match generate
            (newEnvTypesGenerator
               (mkOptions files out None None None None None None))
            now w with
    | (Return _, w') => (0, w')
    | (Throw e, w') =>
        (1, {| fs := fs w'; trace := trace w' ++ [ConsoleError [message e]] |})
    end.
Proof.
  intros Hj Hf Ho. unfold cliMain.
  rewrite (truthy_Some (join [COMMA] files)) by done.
  rewrite (truthy_Some out) by done. simpl negb. cbv iota. simpl default.
  rewrite split_join; [|by destruct files|done].
  by destruct (generate _ now w) as [[[]|e] w'].
Qed.

Lemma pluginEnsureOutputDirectory_exists this w :
  is_Some (fs w !! path_resolve (path_dirname (outputAbsolutePath this))) →
  pluginEnsureOutputDirectory this w = (Return tt, w).
Proof.
  intros H. unfold pluginEnsureOutputDirectory, bind, existsSync.
  by rewrite bool_decide_eq_true_2.
Qed.


(** X19: The CLI splits [ENV_FILES] at commas: it runs the generator on the
    candidate list [files] when it is given their comma-joined names (none of
    which contains a comma), and on [.env.example] then [.env] when
    [ENV_FILES] is undefined or empty; its exit status is 0 exactly when
    [generate] returns. *)
Theorem cli_candidates (files : list jsstring) (out : jsstring) ENV_FILES now w :
  join [COMMA] files ≠ [] →
  Forall (fun f => includes COMMA f = false) files →
  out ≠ [] →
  truthy ENV_FILES = false →
  let run candidates :=
    match generate
            (newEnvTypesGenerator
               (mkOptions candidates out None None None None None None))
            now w with
    | (Return _, w') => (0, w')
    | (Throw e, w') =>
        (1, {| fs := fs w'; trace := trace w' ++ [ConsoleError [message e]] |})
    end in
  cliMain (Some (join [COMMA] files)) (Some out) now w = run files
  ∧ cliMain ENV_FILES (Some out) now w = run [lit ".env.example"; lit ".env"].
Proof.
  intros Hj Hf Ho He run. unfold cliMain.
  rewrite (truthy_Some (join [COMMA] files)) by done.
  rewrite (truthy_Some out) by done.
  rewrite He. simpl negb. cbv iota. simpl default.
  rewrite split_join; [|by destruct files|done].
  split; unfold run.
  - by destruct (generate _ now w) as [[[]|e] w'].
  - change (split COMMA (lit ".env.example,.env"))
      with [lit ".env.example"; lit ".env"].
    by destruct (generate _ now w) as [[[]|e] w'].
Qed.

(** ** More on the plugin *)

Lemma startsWith_iff p (s : jsstring) :
  startsWith p s = true ↔ ∃ r, s = p ++ r.
Proof.
  split.
  - intros H. exists (drop (length p) s). by apply startsWith_app.
  - intros [r ->]. induction p as [|a p IH]; [done|].
    simpl. by rewrite N.eqb_refl, IH.
Qed.

Lemma endsWith_iff suffix (s : jsstring) :
  endsWith suffix s = true ↔ ∃ pre, s = pre ++ suffix.
Proof.
  unfold endsWith. rewrite startsWith_iff. split.
  - intros [r H]. exists (rev r).
    apply (f_equal (@rev _)) in H. rewrite rev_involutive in H.
    by rewrite H, rev_app_distr, rev_involutive.
  - intros [pre ->]. exists (rev pre). by rewrite rev_app_distr.
Qed.

(** X20: The watch-mode trigger is a suffix test: [hasEnvFileChanged] holds exactly
    when the text of some changed path ends with the text of some configured
    env file, whether or not that is the same file. *)
Theorem hasEnvFileChanged_suffix this (changedFiles : list jsstring) :
  hasEnvFileChanged this changedFiles = true
  ↔ ∃ file envFile pre,
      file ∈ changedFiles
      ∧ envFile ∈ p_envFiles (options this)
      ∧ file = pre ++ envFile.
Proof.
  unfold hasEnvFileChanged. rewrite existsb_exists. split.
  - intros (file & Hin & H). apply existsb_exists in H as (envFile & Hin' & H).
    apply endsWith_iff in H as [pre ->].
    exists (pre ++ envFile), envFile, pre.
    by rewrite !list_elem_of_In.
  - intros (file & envFile & pre & Hin & Hin' & ->).
    exists (pre ++ envFile). rewrite <- list_elem_of_In. split; [done|].
    apply existsb_exists. exists envFile. rewrite <- list_elem_of_In.
    split; [done|]. apply endsWith_iff. by exists pre.
Qed.

Lemma applyWatchOptions_fold (plugins : list EnvTypesPlugin)
  (patterns : list IgnoredPattern) (others : list (jsstring * jsstring)) :
  fold_left (fun watchOptions plugin =>
               applyWatchOptions plugin (Some watchOptions))
    plugins
    {| ignored := Some (IgnoredArray patterns); otherWatchOptions := others |}
  = {| ignored :=
         Some (IgnoredArray
                 (patterns
                  ++ map (fun plugin => PatternString (outputAbsolutePath plugin))
                       plugins));
       otherWatchOptions := others |}.
Proof.
  revert patterns. induction plugins as [|p plugins IH]; intros patterns; simpl.
  - by rewrite app_nil_r.
  - unfold applyWatchOptions at 2. simpl. rewrite IH.
    by rewrite <- app_assoc.
Qed.

(** X21: Applying plugin instances one after the other to the watch options,
    whatever these are at the start: the result ignores an array of patterns
    that ends with the output paths of the plugins, in order, never merged;
    before them stand the patterns of an existing array, or an existing
    single pattern when it is truthy; a single empty string is dropped, and
    absent watch options or an absent [ignored] give the output paths alone.
    The other watch options are kept. *)
Theorem applyWatchOptions_accumulates (plugin : EnvTypesPlugin)
  (plugins : list EnvTypesPlugin) :
  let outputs :=
    map (fun plugin => PatternString (outputAbsolutePath plugin))
      (plugin :: plugins) in
  let run watchOptions :=
    fold_left (fun watchOptions plugin =>
                 applyWatchOptions plugin (Some watchOptions))
      plugins (applyWatchOptions plugin watchOptions) in
  run None
  = {| ignored := Some (IgnoredArray outputs); otherWatchOptions := [] |}
  ∧ (∀ others,
       run (Some {| ignored := None; otherWatchOptions := others |})
       = {| ignored := Some (IgnoredArray outputs);
            otherWatchOptions := others |})
  ∧ (∀ patterns others,
       run (Some {| ignored := Some (IgnoredArray patterns);
                    otherWatchOptions := others |})
       = {| ignored := Some (IgnoredArray (patterns ++ outputs));
            otherWatchOptions := others |})
  ∧ (∀ pattern others,
       run (Some {| ignored := Some (IgnoredSingle pattern);
                    otherWatchOptions := others |})
       = {| ignored :=
              Some (IgnoredArray
                      (match pattern with
                       | PatternString [] => []
                       | _ => [pattern]
                       end ++ outputs));
            otherWatchOptions := others |}).
Proof.
  intros outputs run. unfold run, outputs, applyWatchOptions at 2 4 6 8.
  simpl. repeat split; intros; rewrite applyWatchOptions_fold;
    try by rewrite <- ?app_assoc.
  destruct pattern as [[|x s]|src]; simpl; by rewrite <- ?app_assoc.
Qed.

Lemma addFileDependenciesIn_spec (files : list jsstring) (context : jsstring)
  (deps : gset (list N)) (w : World) :
  ∃ deps',
    addFileDependenciesIn files context deps w = (Return deps', w)
    ∧ ∀ x, x ∈ deps'
           ↔ x ∈ deps
             ∨ ∃ file, file ∈ files
                       ∧ x = path_resolve_from context file
                       ∧ is_Some (fs w !! path_resolve x).
Proof.
  revert deps. induction files as [|f files IH]; intros deps.
  - exists deps. split; [done|]. intros x. split; [by left|].
    intros [?|(file & Hin & _)]; [done|]. by apply elem_of_nil in Hin.
  - simpl. unfold bind, existsSync.
    set (fullPath := path_resolve_from context f).
    destruct (IH (if bool_decide (is_Some (fs w !! path_resolve fullPath))
                  then {[fullPath]} ∪ deps else deps)) as (deps' & Hrun & Hspec).
    exists deps'. split; [exact Hrun|]. intros x. rewrite Hspec. clear Hspec Hrun.
    split.
    + intros [Hx|(file & Hin & Hx & He)].
      * case_bool_decide as Hf.
        -- apply elem_of_union in Hx as [->%elem_of_singleton|Hx]; [|by left].
           right. exists f. split; [apply list_elem_of_here|done].
        -- by left.
      * right. exists file. split; [by apply list_elem_of_further|done].
    + intros [Hx|(file & Hin & Hx & He)].
      * left. case_bool_decide; [|done]. apply elem_of_union. by right.
      * apply elem_of_cons in Hin as [->|Hin].
        -- left. subst x. fold fullPath in He. fold fullPath.
           rewrite bool_decide_eq_true_2 by done.
           apply elem_of_union. left. by apply elem_of_singleton.
        -- right. by exists file.
Qed.

(** X22: After the [processAssets] hook the tracked dependencies are: what was
    tracked before, and each configured env file that exists under the
    compiler's context; minus the output path when the generated file exists.
    The hook only reads the file system. *)
Theorem processAssetsHook_dependencies (this : EnvTypesPlugin)
  (context : jsstring)
  (deps : gset (list N)) (w : World) :
  ∃ deps',
    processAssetsHook this context deps w = (Return deps', w)
    ∧ ∀ x, x ∈ deps'
           ↔ (x ∈ deps
              ∨ ∃ file, file ∈ p_envFiles (options this)
                        ∧ x = path_resolve_from context file
                        ∧ is_Some (fs w !! path_resolve x))
             ∧ ¬ (x = outputAbsolutePath this
                  ∧ is_Some (fs w !! path_resolve (outputAbsolutePath this))).
Proof.
  destruct (addFileDependenciesIn_spec (p_envFiles (options this))
              context deps w) as (tracked & Hrun & Hspec).
  unfold processAssetsHook, addFileDependencies, bind. rewrite Hrun.
  unfold excludeFromWatch, bind, existsSync. simpl.
  eexists. split; [reflexivity|]. intros x. rewrite <- Hspec.
  case_bool_decide as Hout.
  - rewrite elem_of_difference, elem_of_singleton. split.
    + intros [Hx Hne]. split; [done|]. by intros [? _].
    + intros [Hx Hne]. split; [done|]. intros ->. by apply Hne.
  - split; [|by intros [? _]]. intros Hx. split; [done|]. by intros [_ ?].
Qed.

(** The [afterCompile] hook removes the output path from the tracked
    dependencies when the generated file exists, and nothing else; when the
    file does not exist the dependencies stay as they are. *)
Theorem afterCompileHook_dependencies (this : EnvTypesPlugin)
  (deps : gset (list N)) (w : World) :
  ∃ deps',
    afterCompileHook this deps w = (Return deps', w)
    ∧ ∀ x, x ∈ deps'
           ↔ x ∈ deps
             ∧ ¬ (x = outputAbsolutePath this
                  ∧ is_Some (fs w !! path_resolve (outputAbsolutePath this))).
Proof.
  unfold afterCompileHook, excludeFromWatch, bind, existsSync. simpl.
  eexists. split; [reflexivity|]. intros x.
  case_bool_decide as Hout.
  - rewrite elem_of_difference, elem_of_singleton. split.
    + intros [Hx Hne]. split; [done|]. by intros [? _].
    + intros [Hx Hne]. split; [done|]. intros ->. by apply Hne.
  - split; [|by intros [? _]]. intros Hx. split; [done|]. by intros [_ ?].
Qed.

Lemma pluginEnsureOutputDirectory_outcome this w :
  let dir := path_resolve (path_dirname (outputAbsolutePath this)) in
  match pluginEnsureOutputDirectory this w with
  | (Return _, w') =>
      is_Some (fs w' !! dir)
      ∧ ∀ k, is_Some (fs w !! k) → fs w' !! k = fs w !! k
  | (Throw e, w') =>
      w' = w ∧ fs w !! dir = None
      ∧ ∃ cause,
          e = JsError
                (lit "[EnvTypesPlugin] Failed to create output directory: "
                 ++ path_dirname (outputAbsolutePath this) ++ [NL]
                 ++ message cause)
  end.
Proof.
  intros dir. unfold pluginEnsureOutputDirectory, bind, existsSync. fold dir.
  destruct (fs w !! dir) as [nd|] eqn:Ed.
  - rewrite bool_decide_eq_true_2 by (by eexists). simpl.
    rewrite Ed. split; [by eexists|done].
  - rewrite bool_decide_eq_false_2 by (by intros [? ?]). simpl.
    unfold tryCatch, bind.
    destruct (mkdirSync_recursive _ w) as [[[]|e] w1] eqn:Em.
    + pose proof (mkdirSync_recursive_creates _ _ _ Em) as Hc. fold dir in Hc.
      pose proof (mkdirSync_recursive_frame _ _ _ _ Em) as Hf.
      destruct (p_silent (options this)); simpl;
        (split; [rewrite Hc; by eexists|done]).
    + apply mkdirSync_recursive_throws in Em as ->. simpl.
      split; [done|]. split; [done|]. by exists e.
Qed.

(** X23: A plugin can only be constructed with a non-empty output path, given as
    such or as the [outputPath] member; a constructed plugin has resolved it,
    the directory of the output path exists from then on, and no path that
    existed before has changed. *)
Theorem constructor_precreates_directory
  (arg : jsstring + EnvTypesPluginOptions) w plugin w' :
  constructEnvTypesPlugin arg w = (Return plugin, w') →
  let outputPath :=
    match arg with
    | inl s => Some s
    | inr o => po_outputPath o
    end in
  truthy outputPath = true
  ∧ outputAbsolutePath plugin = path_resolve (default [] outputPath)
  ∧ is_Some (fs w' !! path_resolve (path_dirname (outputAbsolutePath plugin)))
  ∧ ∀ k, is_Some (fs w !! k) → fs w' !! k = fs w !! k.
Proof.
  intros H outputPath.
  assert (∃ o, newEnvTypesPlugin o w = (Return plugin, w')
               ∧ po_outputPath o = outputPath) as (o & Ho & Hp).
  { destruct arg as [s|o]; eexists; by split. }
  clear H. unfold newEnvTypesPlugin in Ho. rewrite Hp in Ho.
  destruct (truthy outputPath); [|done]. simpl in Ho. unfold bind in Ho.
  match type of Ho with
  | context [pluginEnsureOutputDirectory ?p w] =>
      pose proof (pluginEnsureOutputDirectory_outcome p w) as Hd;
      destruct (pluginEnsureOutputDirectory p w) as [[[]|e] w1]
  end; [|done].
  injection Ho as <- <-. simpl in *. by destruct Hd.
Qed.

End Program.

(** ** The plugin with the bundled generator script *)

Lemma lookupEnv_passed (a b : jsstring) :
  lookupEnv (lit "ENV_FILES") [(lit "ENV_FILES", a); (lit "OUTPUT_PATH", b)]
  = Some a
  ∧ lookupEnv (lit "OUTPUT_PATH") [(lit "ENV_FILES", a); (lit "OUTPUT_PATH", b)]
    = Some b.
Proof. split; reflexivity. Qed.

(** X25: With the bundled generator script as the child process, the
    [beforeCompile] hook leaves the file system as a direct call of [generate]
    with the plugin's candidates and output path leaves it, and then invokes
    the completion callback, whether generation has failed or not. *)
Theorem beforeCompile_runs_generator
  (path_resolve path_dirname : jsstring -> jsstring) (now : Date)
  (this : EnvTypesPlugin) (callback : M unit) (w : World) :
  is_Some (fs w !! path_resolve (path_dirname (outputAbsolutePath this))) →
  join [COMMA] (p_envFiles (options this)) ≠ [] →
  Forall (fun f => includes COMMA f = false) (p_envFiles (options this)) →
  p_outputPath (options this) ≠ [] →
  let generator :=
    newEnvTypesGenerator path_resolve
      (mkOptions (p_envFiles (options this)) (p_outputPath (options this))
         None None None None None None) in
  ∃ w',
    beforeCompileHook path_resolve path_dirname
      (nodeGeneratorScript path_resolve path_dirname now) this callback w
    = callback w'
    ∧ fs w'
      = fs (snd (generate path_resolve path_dirname generator now
                   {| fs := fs w; trace := [] |})).
Proof.
  intros Hdir Hj Hf Ho generator.
  unfold beforeCompileHook, bind. rewrite generateTypes_run.
  unfold generationStep, bind.
  rewrite pluginEnsureOutputDirectory_exists by done.
  unfold nodeGeneratorScript.
  destruct (lookupEnv_passed (join [COMMA] (p_envFiles (options this)))
              (p_outputPath (options this))) as [-> ->].
  rewrite cliMain_joined by done. fold generator. simpl fs.
  destruct (generate path_resolve path_dirname generator now _)
    as [[[]|e] wc]; simpl; by eexists.
Qed.

(** ** Examples *)

(** The end-to-end example of the specification. *)
Example parse_example :
  parseEnvFile sampleEnv
  = [ mkEnvEntry (lit "DB_HOST") (Some (lit "Database host"));
      mkEnvEntry (lit "DB_PORT") (Some (lit "no comment buffer here")) ].
Proof. vm_compute. reflexivity. Qed.

Example render_example :
  generateInterfaceBody false (parseEnvFile sampleEnv)
  = lit "    /**" ++ [NL]
    ++ lit "     * Database host" ++ [NL]
    ++ lit "     */" ++ [NL]
    ++ lit "    DB_HOST?: string;" ++ [NL]
    ++ lit "    /**" ++ [NL]
    ++ lit "     * no comment buffer here" ++ [NL]
    ++ lit "     */" ++ [NL]
    ++ lit "    DB_PORT?: string;".
Proof. vm_compute. reflexivity. Qed.

Example generateContent_example :
  generateContent sampleDate = lit "Generated: 2024-01-15T10:30:00".
Proof. vm_compute. reflexivity. Qed.

(** A first run in [/app] creates [/app/types] and writes the artifact. *)
Example generate_example :
  let g := newEnvTypesGenerator sampleResolve sampleOptions in
  let dts := generateDTS false sampleDate (parseEnvFile sampleEnv) (lit ".env") in
  generate sampleResolve posixDirname g sampleDate sampleWorld
  = (Return tt,
     {| fs := <[lit "/app/types/env.d.ts" := File dts]>
                (<[lit "/app/types" := Directory]> (fs sampleWorld));
        trace :=
          [ FsMkdir (lit "/app/types");
            ConsoleLog [lit "[env-types] Created directory: /app/types"];
            FsWrite (lit "/app/types/env.d.ts") dts;
            ConsoleLog [lit "[env-types] Generated 2 keys from .env " ++ [8594]
                        ++ lit " /app/types/env.d.ts"] ] |}).
Proof. vm_compute. reflexivity. Qed.

(** [generate_idempotent] at the sample directory: a second run, later, only
    prints the notice. *)
Lemma generate_idempotent_witness :
  let g := newEnvTypesGenerator sampleResolve sampleOptions in
  let w1 := snd (generate sampleResolve posixDirname g sampleDate sampleWorld) in
  generate sampleResolve posixDirname g laterDate w1
  = (Return tt,
     {| fs := fs w1; trace := trace w1 ++ [ConsoleLog [upToDateNotice]] |}).
Proof.
  intros g w1.
  destruct (generate_idempotent sampleResolve posixDirname g sampleDate
              laterDate sampleWorld w1) as (f & c & _ & _ & _ & H).
  - vm_compute. reflexivity.
  - vm_compute. reflexivity.
  - exact H.
Defined.

(** [declaration_splits_on_first_equals] at the connection string of the
    specification, written with an [export] prefix and white space around the
    line, the key and the value, in a state with an earlier entry and a
    buffered comment. *)
Lemma declaration_splits_on_first_equals_witness :
  let raw := lit "  export  CONNECTION_STRING = host=localhost;port=5432  " in
  let es := [ {| key := lit "DB_HOST"; comment := None |} ] in
  let buf := [ lit "Database connection" ] in
  let e := {| key := lit "CONNECTION_STRING";
              comment := Some (lit "Database connection") |} in
  ∃ lft rest,
    split1 EQUALS (cleaned (trim raw)) = (lft, rest)
    ∧ lft = lit " CONNECTION_STRING "
    ∧ valuePart rest = lit " host=localhost;port=5432"
    ∧ parseLine (es, buf) raw = (es ++ [e], [])
    ∧ renderEntry false e
      = lit "    /**" ++ [NL]
        ++ lit "     * Database connection" ++ [NL]
        ++ lit "     */" ++ [NL]
        ++ lit "    CONNECTION_STRING?: string;".
Proof.
  intros raw es buf e.
  destruct (declaration_splits_on_first_equals es buf raw)
    as (lft & rest & Hs & _ & _ & _ & H).
  - vm_compute. reflexivity.
  - cbv zeta in H. destruct H as (Hp & Hr & _ & _).
    exists lft, rest. vm_compute in Hs. injection Hs as <- <-.
    split; [|split; [|split; [|split]]].
    + vm_compute. reflexivity.
    + vm_compute. reflexivity.
    + vm_compute. reflexivity.
    + vm_compute in Hp |- *. exact Hp.
    + vm_compute in Hr |- *. exact Hr.
Defined.

(** [comments_round_trip] at a key with two comment lines above it and an
    inline comment. *)
Lemma comments_round_trip_witness :
  let content :=
    lit "# Line 1" ++ [NL] ++ lit "#Line 2" ++ [NL]
    ++ lit "API_KEY=secret # Production key" ++ [NL] ++ lit "PORT=1" in
  let e :=
    {| key := lit "API_KEY";
       comment := Some (lit "Line 1" ++ [NL] ++ lit "Line 2" ++ [NL]
                        ++ lit "Production key") |} in
  (∃ later, parseEnvFile content = e :: later)
  ∧ renderEntry false e
    = lit "    /**" ++ [NL]
      ++ lit "     * Line 1" ++ [NL]
      ++ lit "     * Line 2" ++ [NL]
      ++ lit "     * Production key" ++ [NL]
      ++ lit "     */" ++ [NL]
      ++ lit "    API_KEY?: string;".
Proof.
  intros content e.
  destruct (comments_round_trip content []
              [lit "# Line 1"; lit "#Line 2"]
              (lit "API_KEY=secret # Production key") [lit "PORT=1"]
              (lit "API_KEY") [lit "secret # Production key"]
              (lit "Production key") false) as [[later Hp] Hr].
  - vm_compute. reflexivity.
  - exact I.
  - repeat constructor.
  - vm_compute. reflexivity.
  - vm_compute. reflexivity.
  - vm_compute. reflexivity.
  - discriminate.
  - split.
    + exists later. vm_compute in Hp |- *. exact Hp.
    + vm_compute in Hr |- *. exact Hr.
Defined.

(** [generate_no_source] at a directory without env files. *)
Lemma generate_no_source_witness :
  let g := newEnvTypesGenerator sampleResolve sampleOptions in
  generate sampleResolve posixDirname g sampleDate emptyWorld
  = (Throw (JsError (lit "No env files found. Searched: .env.local, .env")),
     emptyWorld).
Proof.
  intros g.
  apply (generate_no_source sampleResolve posixDirname g sampleDate emptyWorld).
  intros f Hf. apply elem_of_cons in Hf as [->|Hf].
  - vm_compute. reflexivity.
  - apply list_elem_of_singleton in Hf as ->. vm_compute. reflexivity.
Defined.

(** [blank_line_scopes_comments] at a comment separated from the key by a
    line of spaces. *)
Lemma blank_line_scopes_comments_witness :
  let content :=
    lit "# Orphan comment" ++ [NL] ++ lit "  " ++ [NL] ++ lit "DB_HOST=localhost" in
  parseEnvFile content = [ {| key := lit "DB_HOST"; comment := None |} ]
  ∧ map (renderEntry false) (parseEnvFile content)
    = [ lit "    DB_HOST?: string;" ].
Proof.
  intros content.
  destruct (blank_line_scopes_comments content
              [lit "# Orphan comment"] (lit "  ") [lit "DB_HOST=localhost"] false)
    as (_ & Hp & Hr & _).
  - vm_compute. reflexivity.
  - vm_compute. reflexivity.
  - split.
    + rewrite Hp. vm_compute. reflexivity.
    + rewrite Hr. vm_compute. reflexivity.
Defined.


(** Against C9 as stated: the line [=x] is a declaration and its key is
    empty. *)
Lemma declaration_key_may_be_empty :
  isDeclarationLine (lit "=x") = true
  ∧ ∃ e, parseEnvFile (lit "=x") = [e] ∧ key e = [].
Proof.
  split; [vm_compute; reflexivity|].
  exists {| key := []; comment := None |}.
  split; vm_compute; reflexivity.
Qed.

(** [declaration_key_trimmed] at a line with an [export] prefix and spaces
    around the key. *)
Lemma declaration_key_trimmed_witness :
  ∃ e, parseLine ([], []) (lit "  export  API_KEY = secret") = ([e], [])
       ∧ key e = lit "API_KEY"
       ∧ trim (key e) = key e.
Proof.
  destruct (declaration_key_trimmed [] [] (lit "  export  API_KEY = secret"))
    as (e & lft & rest & Hp & Hs & Hk & Ht & _).
  - vm_compute. reflexivity.
  - exists e. vm_compute in Hs. injection Hs as <- <-.
    split; [|split].
    + exact Hp.
    + rewrite Hk. vm_compute. reflexivity.
    + exact Ht.
Defined.

(** [fresh_destination_is_written] at the sample directory, where no artifact
    exists yet. *)
Lemma fresh_destination_is_written_witness :
  let g := newEnvTypesGenerator sampleResolve sampleOptions in
  let w' := snd (generate sampleResolve posixDirname g sampleDate sampleWorld) in
  shouldUpdate sampleResolve g (lit "any content") sampleWorld
  = (Return true, sampleWorld)
  ∧ ∃ dts, fs w' !! sampleResolve (outputPath g) = Some (File dts)
           ∧ FsWrite (outputPath g) dts ∈ trace w'.
Proof.
  intros g w'.
  destruct (fresh_destination_is_written sampleResolve posixDirname g sampleWorld)
    as (H & _ & Hw).
  - vm_compute. reflexivity.
  - split.
    + exact (H (lit "any content")).
    + apply (Hw sampleDate w'). vm_compute. reflexivity.
Defined.

(** C7: with [useValuesAsTypes: true] and the source [DB_HOST=localhost] of the
    test "should handle useValuesAsTypes option", the member is still typed
    [string] and the artifact contains no double quote at all, so not the
    literal type ["localhost"] either. *)
Lemma useValuesAsTypes_is_ignored :
  let options :=
    mkOptions [lit ".env"] (lit "env.d.ts") (Some true) None None None None
      (Some true) in
  let g := newEnvTypesGenerator sampleResolve options in
  let w := {| fs := <[lit "/app/.env" := File (lit "DB_HOST=localhost")]>
                      (<[lit "/app" := Directory]> ∅);
              trace := [] |} in
  let dts := generateDTS false sampleDate [mkEnvEntry (lit "DB_HOST") None]
               (lit ".env") in
  generateInterfaceBody false (parseEnvFile (lit "DB_HOST=localhost"))
  = lit "    DB_HOST?: string;"
  ∧ fs (snd (generate sampleResolve posixDirname g sampleDate w))
      !! lit "/app/env.d.ts" = Some (File dts)
  ∧ includes QUOTE dts = false.
Proof. vm_compute. repeat split; reflexivity. Qed.

(** Against C8 as stated: in the [watchRun] hook too a failing generation step
    is swallowed.
    In a directory without env files the generator script fails, the step
    throws, and the hook returns normally after printing the error. *)
Lemma watchRun_swallows_failure :
  let run := nodeGeneratorScript sampleResolve posixDirname sampleDate in
  let w := {| fs := <[lit "/app/types" := Directory]> (fs emptyWorld);
              trace := [] |} in
  let uncaught :=
    ConsoleError [lit "No env files found. Searched: .env, .env.example"] in
  generationStep sampleResolve posixDirname run samplePlugin w
  = (Throw (JsError (lit "Command failed: node dist/EnvTypesGenerator.js")),
     {| fs := fs w; trace := [uncaught] |})
  ∧ watchRunHook sampleResolve posixDirname run samplePlugin
      (Some [lit "/app/.env"]) w
    = (Return tt,
       {| fs := fs w;
          trace :=
            [ uncaught;
              ConsoleError
                [ lit "[EnvTypesPlugin] Failed to generate env types:";
                  lit "Command failed: node dist/EnvTypesGenerator.js" ] ] |}).
Proof. split; vm_compute; reflexivity. Qed.

(** ** Examples for the further properties *)

(** [line_without_equals_scopes_comments] at a comment followed by a line of
    plain text. *)
Lemma line_without_equals_scopes_comments_witness :
  parseEnvFile (join [NL] [lit "# note"; lit "just text"; lit "A=1"])
  = [ {| key := lit "A"; comment := None |} ].
Proof.
  rewrite (line_without_equals_scopes_comments
             (join [NL] [lit "# note"; lit "just text"; lit "A=1"])
             [lit "# note"] (lit "just text") [lit "A=1"]).
  - vm_compute. reflexivity.
  - vm_compute. reflexivity.
  - vm_compute. reflexivity.
  - vm_compute. reflexivity.
Defined.

(** [comment_attaches_to_one_key] at two keys under one comment. *)
Lemma comment_attaches_to_one_key_witness :
  ∃ e1 later,
    parseEnvFile (join [NL] [lit "# shared"; lit "A=1"; lit "B=2"])
    = e1 :: {| key := lit "B"; comment := None |} :: later
    ∧ key e1 = lit "A".
Proof.
  destruct (comment_attaches_to_one_key
              (join [NL] [lit "# shared"; lit "A=1"; lit "B=2"])
              [lit "# shared"] (lit "A=1") (lit "B=2") [])
    as (e1 & later & H & Hk).
  - vm_compute. reflexivity.
  - vm_compute. reflexivity.
  - vm_compute. reflexivity.
  - exists e1, later. split.
    + vm_compute in H |- *. exact H.
    + vm_compute in Hk |- *. exact Hk.
Defined.

(** [inlineComment_after_first_hash] at a value followed by two [#]. *)
Lemma inlineComment_after_first_hash_witness :
  inlineComment (lit "secret ") = None
  ∧ inlineComment (lit "secret " ++ HASH :: lit " first # second ")
    = Some (lit "first # second").
Proof.
  destruct (inlineComment_after_first_hash (lit "secret ")
              (lit " first # second ")) as [H1 H2].
  - vm_compute. reflexivity.
  - split; [exact H1|]. rewrite H2. vm_compute. reflexivity.
Defined.

(** [crlf_line_endings] at a two-line source saved with CR LF. *)
Lemma crlf_line_endings_witness :
  parseEnvFile (join [CR; NL] [lit "# Database host"; lit "DB_HOST=localhost"; []])
  = [ {| key := lit "DB_HOST"; comment := Some (lit "Database host") |} ].
Proof.
  rewrite (crlf_line_endings [lit "# Database host"; lit "DB_HOST=localhost"; []]).
  - vm_compute. reflexivity.
  - repeat constructor.
Defined.

(** [bare_comment_line_gives_no_doc_block] at a key under a bare [#], between
    two other keys. *)
Lemma bare_comment_line_gives_no_doc_block_witness :
  let content := join [NL] [lit "A=1"; lit "#"; lit "  B = 2"; lit "C=3"] in
  let e := {| key := lit "B"; comment := Some [] |} in
  (∃ later,
     parseEnvFile content = {| key := lit "A"; comment := None |} :: e :: later)
  ∧ renderEntry false e = lit "    B?: string;".
Proof.
  intros content e.
  destruct (bare_comment_line_gives_no_doc_block content
              [lit "A=1"] (lit "#") (lit "  B = 2") [lit "C=3"]
              (lit "B ") [lit " 2"] false) as ([later Hp] & _ & Hr & _).
  - vm_compute. reflexivity.
  - vm_compute. reflexivity.
  - vm_compute. reflexivity.
  - vm_compute. reflexivity.
  - vm_compute. reflexivity.
  - vm_compute. reflexivity.
  - vm_compute. reflexivity.
  - split.
    + exists later. vm_compute in Hp |- *. exact Hp.
    + vm_compute in Hr |- *. exact Hr.
Defined.

(** [generateInterfaceBody_lines] at an entry with a two-line comment and one
    without, partial types disabled. *)
Lemma generateInterfaceBody_lines_witness :
  split NL
    (generateInterfaceBody true
       [ {| key := lit "A"; comment := Some (lit "x" ++ [NL] ++ lit "y") |};
         {| key := lit "B"; comment := None |} ])
  = [ lit "    /**"; lit "     * x"; lit "     * y"; lit "     */";
      lit "    A: string;"; lit "    B: string;" ].
Proof.
  rewrite (generateInterfaceBody_lines true).
  - vm_compute. reflexivity.
  - discriminate.
  - repeat constructor.
Defined.

(** [shouldUpdate_detects_changed_body] at an artifact of [A=1] and a source
    that has gained the key [B]. *)
Lemma shouldUpdate_detects_changed_body_witness :
  let g := newEnvTypesGenerator sampleResolve sampleOptions in
  let w :=
    {| fs := <[lit "/app/types/env.d.ts" :=
                 File (generateDTS false sampleDate (parseEnvFile (lit "A=1"))
                         (lit ".env"))]> (fs sampleWorld);
       trace := [] |} in
  shouldUpdate sampleResolve g
    (generateDTS false laterDate
       (parseEnvFile (lit "A=1" ++ [NL] ++ lit "B=2")) (lit ".env")) w
  = (Return true, w).
Proof.
  intros g w.
  apply (shouldUpdate_detects_changed_body sampleResolve g false sampleDate
           laterDate (lit "A=1") (lit "A=1" ++ [NL] ++ lit "B=2") (lit ".env") w).
  - vm_compute. reflexivity.
  - intros H. vm_compute in H. discriminate H.
Defined.

(** [pad_two_digits] at 7. *)
Lemma pad_two_digits_witness :
  ∃ a b, pad 7 = [a; b] ∧ isDigit a = true ∧ isDigit b = true
         ∧ 7 = 10 * (a - 48) + (b - 48).
Proof. apply (pad_two_digits 7). reflexivity. Defined.

(** [generateContent_shape] at the sample date. *)
Lemma generateContent_shape_witness :
  matchesPattern timestampPattern (generateContent sampleDate) = true.
Proof. apply (generateContent_shape sampleDate); vm_compute; (reflexivity || discriminate). Defined.

(** [directory_candidate_stops_generation] where [.env.local] is a directory
    and [.env] a readable file. *)
Lemma directory_candidate_stops_generation_witness :
  let g := newEnvTypesGenerator sampleResolve sampleOptions in
  let w := {| fs := <[lit "/app/.env.local" := Directory]> (fs sampleWorld);
              trace := [] |} in
  generate sampleResolve posixDirname g sampleDate w
  = (Throw (SystemError EISDIR (lit ".env.local")), w).
Proof.
  intros g w.
  apply (directory_candidate_stops_generation sampleResolve posixDirname g
           sampleDate w [] (lit ".env.local") [lit ".env"]).
  - reflexivity.
  - intros A HA. by apply elem_of_nil in HA.
  - vm_compute. reflexivity.
Defined.

(** [output_directory_stops_generation] where the output path is a
    directory. *)
Lemma output_directory_stops_generation_witness :
  let g := newEnvTypesGenerator sampleResolve sampleOptions in
  let w := {| fs := <[lit "/app/types/env.d.ts" := Directory]> (fs sampleWorld);
              trace := [] |} in
  generate sampleResolve posixDirname g sampleDate w
  = (Throw (SystemError EISDIR (lit "/app/types/env.d.ts")), w).
Proof.
  intros g w.
  apply (output_directory_stops_generation sampleResolve posixDirname g
           sampleDate w (lit ".env") sampleEnv).
  - vm_compute. reflexivity.
  - vm_compute. reflexivity.
Defined.

(** [generate_preserves_other_files] at the source file of the sample
    directory. *)
Lemma generate_preserves_other_files_witness :
  let g := newEnvTypesGenerator sampleResolve sampleOptions in
  fs (snd (generate sampleResolve posixDirname g sampleDate sampleWorld))
    !! lit "/app/.env"
  = fs sampleWorld !! lit "/app/.env".
Proof.
  intros g.
  apply (generate_preserves_other_files sampleResolve posixDirname g sampleDate
           sampleWorld (lit "/app/.env")).
  - vm_compute. discriminate.
  - exists (File sampleEnv). vm_compute. reflexivity.
Defined.

(** [cli_candidates] at the sample directory. *)
Lemma cli_candidates_witness :
  fst (cliMain sampleResolve posixDirname
         (Some (join [COMMA] [lit ".env.local"; lit ".env"]))
         (Some (lit "types/env.d.ts")) sampleDate sampleWorld) = 0
  ∧ fst (cliMain sampleResolve posixDirname None
           (Some (lit "types/env.d.ts")) sampleDate sampleWorld) = 0.
Proof.
  destruct (cli_candidates sampleResolve posixDirname
              [lit ".env.local"; lit ".env"] (lit "types/env.d.ts") None
              sampleDate sampleWorld) as [H1 H2].
  - discriminate.
  - repeat constructor.
  - discriminate.
  - reflexivity.
  - rewrite H1, H2. vm_compute. split; reflexivity.
Defined.

(** [constructor_precreates_directory] with the string shorthand, in a
    directory without [types]. *)
Lemma constructor_precreates_directory_witness :
  let script := lit "/pkg/dist/EnvTypesGenerator.js" in
  let plugin :=
    {| options :=
         {| p_envFiles := [lit ".env"; lit ".env.example"];
            p_outputPath := lit "types/env.d.ts";
            p_generatorScript := script;
            p_silent := false |};
       outputAbsolutePath := lit "/app/types/env.d.ts" |} in
  let w' :=
    snd (constructEnvTypesPlugin sampleResolve posixDirname script
           (inl (lit "types/env.d.ts")) emptyWorld) in
  is_Some (fs w' !! sampleResolve (posixDirname (outputAbsolutePath plugin)))
  ∧ ∀ k, is_Some (fs emptyWorld !! k) → fs w' !! k = fs emptyWorld !! k.
Proof.
  intros script plugin w'.
  pose proof (constructor_precreates_directory sampleResolve posixDirname script
                (inl (lit "types/env.d.ts")) emptyWorld plugin w') as H.
  cbv zeta in H. destruct H as (_ & _ & H3 & H4).
  - vm_compute. reflexivity.
  - split; [exact H3|exact H4].
Defined.


(** [export_prefix_is_dropped] at a key with spaces around the line. *)
Lemma export_prefix_is_dropped_witness :
  parseLine ([], []) (lit "export " ++ trim (lit "  API_KEY=secret "))
  = ([ {| key := lit "API_KEY"; comment := None |} ], []).
Proof.
  rewrite (export_prefix_is_dropped ([], []) (lit "  API_KEY=secret ")).
  - vm_compute. reflexivity.
  - vm_compute. reflexivity.
  - vm_compute. reflexivity.
Defined.

(** [generate_rewrites_after_change] where the artifact on disk was generated
    from [A=1] and the source is now the sample file. *)
Lemma generate_rewrites_after_change_witness :
  let g := newEnvTypesGenerator sampleResolve sampleOptions in
  let w :=
    {| fs := <[lit "/app/types/env.d.ts" :=
                 File (generateDTS false sampleDate (parseEnvFile (lit "A=1"))
                         (lit ".env"))]>
               (<[lit "/app/types" := Directory]> (fs sampleWorld));
       trace := [] |} in
  let w' := snd (generate sampleResolve posixDirname g laterDate w) in
  fs w' !! lit "/app/types/env.d.ts"
  = Some (File (generateDTS false laterDate (parseEnvFile sampleEnv) (lit ".env"))).
Proof.
  intros g w w'.
  apply (generate_rewrites_after_change sampleResolve posixDirname g sampleDate
           laterDate w (lit ".env") (lit "A=1") sampleEnv w').
  - vm_compute. reflexivity.
  - vm_compute. reflexivity.
  - intros H. vm_compute in H. discriminate H.
  - vm_compute. reflexivity.
Defined.

(** [beforeCompile_runs_generator] at the sample directory, with [types]
    already created. *)
Lemma beforeCompile_runs_generator_witness :
  let w := {| fs := <[lit "/app/types" := Directory]> (fs sampleWorld);
              trace := [] |} in
  let generator :=
    newEnvTypesGenerator sampleResolve
      (mkOptions [lit ".env"; lit ".env.example"] (lit "types/env.d.ts")
         None None None None None None) in
  ∃ w',
    beforeCompileHook sampleResolve posixDirname
      (nodeGeneratorScript sampleResolve posixDirname sampleDate)
      samplePlugin (ret tt) w
    = ret tt w'
    ∧ fs w'
      = fs (snd (generate sampleResolve posixDirname generator sampleDate
                   {| fs := fs w; trace := [] |})).
Proof.
  intros w generator.
  apply (beforeCompile_runs_generator sampleResolve posixDirname sampleDate
           samplePlugin (ret tt) w).
  - exists Directory. vm_compute. reflexivity.
  - discriminate.
  - repeat constructor.
  - discriminate.
Defined.

(** The suffix test of the watch-mode trigger is coarse: [prod.env] ends with
    [.env]. *)
Example hasEnvFileChanged_example :
  hasEnvFileChanged samplePlugin [lit "/app/src/index.ts"; lit "/app/prod.env"]
  = true
  ∧ hasEnvFileChanged samplePlugin [lit "/app/src/index.ts"] = false.
Proof. split; vm_compute; reflexivity. Qed.

(** A single ignored pattern is kept, the empty string is not. *)
Example applyWatchOptions_example :
  ignored (applyWatchOptions samplePlugin
             (Some {| ignored := Some (IgnoredSingle (PatternRegExp (lit "node_modules")));
                      otherWatchOptions := [] |}))
  = Some (IgnoredArray [PatternRegExp (lit "node_modules");
                        PatternString (lit "/app/types/env.d.ts")])
  ∧ ignored (applyWatchOptions samplePlugin
               (Some {| ignored := Some (IgnoredSingle (PatternString []));
                        otherWatchOptions := [] |}))
    = Some (IgnoredArray [PatternString (lit "/app/types/env.d.ts")])
  ∧ ignored (applyWatchOptions samplePlugin None)
    = Some (IgnoredArray [PatternString (lit "/app/types/env.d.ts")]).
Proof. repeat split. Qed.

(** With the generated file on disk, the [processAssets] hook tracks [.env]
    and stops tracking the generated file. *)
Example processAssetsHook_example :
  let w := {| fs := <[lit "/app/types/env.d.ts" := File []]> (fs sampleWorld);
              trace := [] |} in
  let deps : gset (list N) := {[ lit "/app/types/env.d.ts"; lit "/app/src/index.ts" ]} in
  ∃ deps',
    processAssetsHook sampleResolve posixResolve samplePlugin (lit "/app") deps w
    = (Return deps', w)
    ∧ elements deps' ≡ₚ [lit "/app/src/index.ts"; lit "/app/.env"].
Proof.
  intros w deps. eexists. split; [vm_compute; reflexivity|].
  vm_compute. apply perm_swap || reflexivity.
Qed.
